(** * Modshift transit-significance metrics (exovetter/modshift/modshift.py)

    A shallow embedding of the Python module and the properties of it that
    the specification states.

    Numbers.  Python floats and numpy float64 values are modelled by exact
    rationals ([Q]); a Python [int] is a [Z].  Rounding, overflow, infinities
    and NaN are outside the model.  Where numpy would produce a non-finite
    value without raising (an element-wise division by zero, [fmod] by
    zero), the model has the value that [Q] arithmetic gives (x / 0 = 0);
    no theorem below depends on such a value.  Where a property is about
    overflow itself, the statistic of the convolution engine is also given
    on binary64 floats ([convolution_statistic_binary64]).

    Exceptions.  Every function that can raise returns a [result]; Python's
    [assert] is [py_assert].

    Arrays.  A one-dimensional numpy array is a [list Q] (a boolean array a
    [list bool]); a two-dimensional array is an [ndarray2], stored by
    columns, because the module only reads and writes whole columns.

    Dictionaries are [gmap string Q]. *)

From Stdlib Require Import QArith Qround Qabs Lqa ZArith Lia Floats.
From stdpp Require Import base option list gmap strings.

Open Scope Q_scope.

(** ** Exceptions *)

Inductive exception : Set :=
| AssertionError
| IndexError
| KeyError
| TypeError
| ValueError
| ZeroDivisionError.

Inductive result (A : Type) : Type :=
| Ok (a : A)
| Raise (e : exception).

Arguments Ok {A} a.
Arguments Raise {A} e.

Definition bind {A B : Type} (c : result A) (k : A -> result B) : result B :=
  match c with
  | Ok a => k a
  | Raise e => Raise e
  end.

Notation "x <- c ;; k" := (bind c (fun x => k))
  (at level 100, c at next level, right associativity).

Definition py_assert (b : bool) : result unit :=
  if b then Ok tt else Raise AssertionError.

Definition raises {A : Type} (c : result A) : Prop :=
  exists e, c = Raise e.

(** [for x in xs: acc = body(acc, x)] with a body that may raise. *)
Fixpoint for_each {A S : Type} (xs : list A) (body : S -> A -> result S)
    (acc : S) : result S :=
  match xs with
  | [] => Ok acc
  | x :: xs' => acc' <- body acc x ;; for_each xs' body acc'
  end.

(** ** Scalars *)

Definition Qltb (x y : Q) : bool := negb (Qle_bool y x).

(** [int(x)]: truncation towards zero. *)
Definition py_int (x : Q) : Z := Z.quot (Qnum x) (Z.pos (Qden x)).

(** [x / y] on Python floats. *)
Definition py_div (x y : Q) : result Q :=
  if Qeq_bool y 0 then Raise ZeroDivisionError else Ok (x / y).

(** C's [fmod], which [np.fmod] applies element-wise: the remainder has the
    sign of the dividend, [x - y * trunc (x / y)]. *)
Definition fmod (x y : Q) : Q := x - y * inject_Z (py_int (x / y)).

(** ** One-dimensional arrays *)

Definition Qsum (a : list Q) : Q := foldr Qplus 0 a.

Definition np_fmod (a : list Q) (y : Q) : list Q := map (fun x => fmod x y) a.

(** [np.arange(stop)]: 0, 1, ..., up to but excluding [stop]; the module
    calls it with an [int] and, through the swapped call, with a float. *)
Definition np_arange (stop : Q) : list Q :=
  map (fun k => inject_Z (Z.of_nat k)) (seq 0 (Z.to_nat (Qceiling stop))).

(** [a[i]] for an index that must be in range. *)
Definition get_item {A : Type} (a : list A) (i : nat) : result A :=
  match a !! i with
  | Some x => Ok x
  | None => Raise IndexError
  end.

(** [a[ix]] for an array [ix] of indices. *)
Fixpoint take_indices {A : Type} (a : list A) (ix : list nat)
    : result (list A) :=
  match ix with
  | [] => Ok []
  | i :: ix' =>
      x <- get_item a i ;;
      xs <- take_indices a ix' ;;
      Ok (x :: xs)
  end.

(** The elements of [a] at the positions where [idx] is true. *)
Fixpoint select {A : Type} (a : list A) (idx : list bool) : list A :=
  match a, idx with
  | x :: a', b :: idx' => if b then x :: select a' idx' else select a' idx'
  | _, _ => []
  end.

(** [a[idx]] for a boolean array [idx]: the lengths must agree. *)
Definition mask_select {A : Type} (a : list A) (idx : list bool)
    : result (list A) :=
  if Nat.eqb (length idx) (length a) then Ok (select a idx)
  else Raise IndexError.

Fixpoint assign {A : Type} (a : list A) (idx : list bool) (v : A) : list A :=
  match a, idx with
  | x :: a', b :: idx' => (if b then v else x) :: assign a' idx' v
  | _, _ => a
  end.

(** [a[idx] = v] for a boolean array [idx] and a scalar [v]. *)
Definition mask_assign {A : Type} (a : list A) (idx : list bool) (v : A)
    : result (list A) :=
  if Nat.eqb (length idx) (length a) then Ok (assign a idx v)
  else Raise IndexError.

(** [a & b] and [a | b] on boolean arrays of one length, written by the
    module as [idx &= ...] and [idx1 | idx2]. *)
Definition np_and (a b : list bool) : list bool := zip_with andb a b.
Definition np_or (a b : list bool) : list bool := zip_with orb a b.
Definition np_not (a : list bool) : list bool := map negb a.

(** [np.any]. *)
Definition np_any (a : list bool) : bool := existsb id a.

(** [np.sum] of a boolean array. *)
Definition np_count (a : list bool) : nat := length (filter (fun b => b = true) a).

(** Index of the first element that no other element beats: [np.argmin]
    with [better x y := x < y], [np.argmax] with [better x y := y < x]. *)
Fixpoint first_best (better : Q -> Q -> bool) (i ibest : nat) (best : Q)
    (a : list Q) : nat :=
  match a with
  | [] => ibest
  | x :: a' =>
      if better x best then first_best better (S i) i x a'
      else first_best better (S i) ibest best a'
  end.

Definition np_argmin (a : list Q) : result nat :=
  match a with
  | [] => Raise ValueError
  | x :: a' => Ok (first_best Qltb 1 0 x a')
  end.

Definition np_argmax (a : list Q) : result nat :=
  match a with
  | [] => Raise ValueError
  | x :: a' => Ok (first_best (fun u v => Qltb v u) 1 0 x a')
  end.

Definition np_max (a : list Q) : result Q :=
  match a with
  | [] => Raise ValueError
  | x :: a' => Ok (foldl (fun m y => if Qltb m y then y else m) x a')
  end.

(** [np.argsort]: the indices that sort [a].  numpy's default sort leaves
    the order of equal keys open; this model keeps them in their order, and
    the module does not depend on it. *)
Fixpoint insert_key (k : Q) (i : nat) (l : list (Q * nat)) : list (Q * nat) :=
  match l with
  | [] => [(k, i)]
  | (k', i') :: l' =>
      if Qle_bool k k' then (k, i) :: l else (k', i') :: insert_key k i l'
  end.

Definition np_argsort (a : list Q) : list nat :=
  map snd (foldr (fun ki acc => insert_key (fst ki) (snd ki) acc) []
             (zip a (seq 0 (length a)))).

(** [c[1:] - c[:-1]]. *)
Definition np_diff (c : list Q) : list Q := zip_with Qminus (tail c) c.

(** [np.histogram(a, bins=edges, weights=w)[0]] for an array of bin edges.
    numpy builds the cumulative weight of the samples below each edge
    (strictly below, except for the last edge, which is inclusive: the last
    bin is closed on the right) and returns the differences. *)
Definition weight_below (inclusive : bool) (a w : list Q) (e : Q) : Q :=
  Qsum (select w (map (fun x => if inclusive then Qle_bool x e else Qltb x e) a)).

Fixpoint cumulative (a w edges : list Q) : list Q :=
  match edges with
  | [] => []
  | e :: edges' =>
      match edges' with
      | [] => [weight_below true a w e]
      | _ :: _ => weight_below false a w e :: cumulative a w edges'
      end
  end.

Definition np_histogram (a edges : list Q) (weights : option (list Q))
    : result (list Q) :=
  w <- match weights with
       | None => Ok (map (fun _ => 1) a)
       | Some w =>
           if Nat.eqb (length w) (length a) then Ok w else Raise ValueError
       end ;;
  if np_any (zip_with (fun lo hi => Qltb hi lo) edges (tail edges))
  then Raise ValueError
  else Ok (np_diff (cumulative a w edges)).

(** [np.convolve(a, v)] in its default mode "full":
    out[k] = sum over j of a[j] * v[k - j], for k < len a + len v - 1. *)
Definition convolve_at (a v : list Q) (k : nat) : Q :=
  Qsum (map (fun j => if Nat.leb j k then nth j a 0 * nth (k - j) v 0 else 0)
          (seq 0 (length a))).

Definition np_convolve (a v : list Q) : result (list Q) :=
  match a, v with
  | [], _ | _, [] => Raise ValueError
  | _, _ => Ok (map (convolve_at a v) (seq 0 (length a + length v - 1)))
  end.

(** [a[i0:i1]]. *)
Definition slice {A : Type} (a : list A) (i0 i1 : nat) : list A :=
  take (i1 - i0) (drop i0 a).

(** ** Two-dimensional arrays *)

Record ndarray2 : Type := { nrows : nat; columns : list (list Q) }.

(** [np.zeros((n, c))]. *)
Definition np_zeros2 (n c : nat) : ndarray2 :=
  {| nrows := n; columns := replicate c (replicate n 0) |}.

(** [A[:, k]]. *)
Definition get_column (A : ndarray2) (k : nat) : result (list Q) :=
  get_item (columns A) k.

(** [A[:, k] = v]: the column index is checked first, then [v] must have
    one entry per row, or a single entry, which is broadcast. *)
Definition set_column (A : ndarray2) (k : nat) (v : list Q) : result ndarray2 :=
  if Nat.ltb k (length (columns A)) then
    if Nat.eqb (length v) (nrows A) then
      Ok {| nrows := nrows A; columns := <[k := v]> (columns A) |}
    else
      match v with
      | [x] => Ok {| nrows := nrows A;
                     columns := <[k := replicate (nrows A) x]> (columns A) |}
      | _ => Raise ValueError
      end
  else Raise IndexError.

(** [A[i, k]]. *)
Definition get_entry (A : ndarray2) (i k : nat) : result Q :=
  col <- get_column A k ;;
  get_item col i.

(** [np.vstack([a, b]).transpose()]. *)
Definition np_vstack_T (a b : list Q) : result ndarray2 :=
  if Nat.eqb (length a) (length b)
  then Ok {| nrows := length a; columns := [a; b] |}
  else Raise ValueError.

(** ** Functions of numpy and scipy with irrational values

    [np.sqrt] and [scipy.special.erfcinv] have no rational counterpart; the
    module is parametrised by them. *)
Class SpecialFunctions : Type := {
  np_sqrt : Q -> Q;
  erfcinv : Q -> Q
}.

Definition np_mean (a : list Q) : Q := Qsum a / inject_Z (Z.of_nat (length a)).

(** [np.std]: the population standard deviation. *)
Definition np_std `{SpecialFunctions} (a : list Q) : Q :=
  let m := np_mean a in
  np_sqrt (np_mean (map (fun x => (x - m) * (x - m)) a)).

(** ** Dictionaries and hashing *)

(** The Python values that the module tests for membership in a dictionary's
    keys: strings and lists.  A list is not hashable. *)
Inductive pyobject : Type :=
| PyStr (s : string)
| PyList (items : list string).

Definition py_hash (o : pyobject) : result unit :=
  match o with
  | PyStr _ => Ok tt
  | PyList _ => Raise TypeError
  end.

(** [o in d.keys()]: the key is hashed, then looked up. *)
Definition keys_contains (o : pyobject) (d : gmap string Q) : result bool :=
  _ <- py_hash o ;;
  Ok (match o with
      | PyStr s => bool_decide (is_Some (d !! s))
      | PyList _ => false
      end).

(** [d[k]]. *)
Definition dict_get (d : gmap string Q) (k : string) : result Q :=
  match d !! k with
  | Some v => Ok v
  | None => Raise KeyError
  end.

(** ["pri sec ter pos".split()]. *)
Definition event_keys : list string := ["pri"; "sec"; "ter"; "pos"]%string.

(** * The module *)

Section Modshift.
Context `{SpecialFunctions}.

Definition compute_phase (time : list Q) (period epoch offset : Q) : list Q :=
  np_fmod (map (fun t => t - epoch + offset * period) time) period.

Definition fold_and_bin_data (time flux : list Q)
    (period epoch num_bins offset_frac : Q) : result ndarray2 :=
  let i := np_arange num_bins in
  let bins := map (fun k => k / num_bins * period) i in
  let phase := compute_phase time period epoch offset_frac in
  let srt := np_argsort phase in
  phase <- take_indices phase srt ;;
  flux <- take_indices flux srt ;;
  cts <- np_histogram phase bins None ;;
  binnedFlux <- np_histogram phase bins (Some flux) ;;
  let idx := map (fun c => Qltb 0 c) cts in
  let numNonZeroBins := np_count idx in
  let out := np_zeros2 numNonZeroBins 2 in
  v0 <- mask_select (take (length bins - 1) bins) idx ;;
  out <- set_column out 0 v0 ;;
  v1 <- mask_select binnedFlux idx ;;
  out <- set_column out 1 v1 ;;
  v2 <- mask_select cts idx ;;
  out <- set_column out 2 v2 ;;
  Ok out.

(** The two [np.isfinite] assertions hold of every rational array. *)
Definition compute_convolution_for_binned_data (phase flux model : list Q)
    (offset_frac : Q) : result ndarray2 :=
  _ <- py_assert (Nat.eqb (length phase) (length flux)) ;;
  _ <- py_assert (Nat.eqb (length flux) (length model)) ;;
  period <- np_max phase ;;
  let phase := phase ++ map (fun p => period + p) phase in
  let flux := flux ++ flux in
  conv <- np_convolve flux (map Qopp model) ;;
  let i0 := length model in
  let i1 := (i0 + length model)%nat in
  let phi := slice phase i0 i1 in
  let conv := slice conv i0 i1 in
  let bphase := np_fmod (map (fun p => p - offset_frac * period) phi) period in
  np_vstack_T bphase conv.

(** [centre - width < phase] and-ed with [phase < centre + width]. *)
Definition window (centre width : Q) (phase : list Q) : list bool :=
  np_and (map (fun p => Qltb (centre - width) p) phase)
         (map (fun p => Qltb p (centre + width)) phase).

Definition find_indices_of_key_locations (conv : ndarray2)
    (period_days duration_hrs : Q) : result (gmap string Q) :=
  let transit_width := duration_hrs / 24 in
  let gap_width := 2 * transit_width in
  let pos_gap_width := 3 * transit_width in
  phase <- get_column conv 0 ;;
  ms <- get_column conv 1 ;;
  i0 <- np_argmin ms ;;
  pri <- get_item phase i0 ;;
  let out := <["pri" := pri]> (∅ : gmap string Q) in
  ms <- mask_assign ms (window pri gap_width phase) 0 ;;
  i1 <- np_argmin ms ;;
  sec <- get_item phase i1 ;;
  let out := <["sec" := sec]> out in
  ms <- mask_assign ms (window sec gap_width phase) 0 ;;
  i2 <- np_argmin ms ;;
  ter <- get_item phase i2 ;;
  let out := <["ter" := ter]> out in
  ms <- mask_assign ms (window pri pos_gap_width phase) 0 ;;
  ms <- mask_assign ms (window sec pos_gap_width phase) 0 ;;
  i0 <- np_argmax ms ;;
  pos <- get_item phase i0 ;;
  let out := <["pos" := pos]> out in
  Ok out.

(** The boolean array [~(idx1 | idx2)] of [estimate_scatter]: the samples
    outside both exclusion windows. *)
Definition scatter_mask (phi_days : list Q)
    (phi_pri_days phi_sec_days gap_width_hrs : Q) : list bool :=
  let gap_width_days := gap_width_hrs / 24 in
  let idx1 := window phi_pri_days gap_width_days phi_days in
  let idx2 := window phi_sec_days gap_width_days phi_days in
  np_not (np_or idx1 idx2).

Definition estimate_scatter (phi_days flux : list Q)
    (phi_pri_days phi_sec_days gap_width_hrs : Q) : result Q :=
  _ <- py_assert (Nat.eqb (length phi_days) (length flux)) ;;
  let idx := scatter_mask phi_days phi_pri_days phi_sec_days gap_width_hrs in
  _ <- py_assert (np_any idx) ;;
  kept <- mask_select flux idx ;;
  let rms := np_std kept in
  Ok rms.

Definition compute_event_significances (conv : ndarray2)
    (results : gmap string Q) : result (gmap string Q) :=
  b <- keys_contains (PyList event_keys) results ;;
  _ <- py_assert b ;;
  for_each event_keys
    (fun out key =>
       phase <- get_column conv 0 ;;
       r <- dict_get results key ;;
       i0 <- np_argmin (map (fun p => Qabs (p - r)) phase) ;;
       v <- get_entry conv i0 1 ;;
       Ok (<["sigma_" +:+ key := v]> out))
    (∅ : gmap string Q).

Definition compute_false_alarm_threshold (period_days duration_hrs : Q)
    : result Q :=
  let duration_days := duration_hrs / 24 in
  r <- py_div duration_days period_days ;;
  let fa := erfcinv r in
  let fa := fa * np_sqrt 2 in
  Ok fa.

(** Modelled from the spec: [plotmodshift.plot_modshift] is not among the
    sources; the specification calls it purely observational, with no effect
    on the result. *)
Definition plot_modshift (phi_days flux model : list Q) (conv : ndarray2)
    (results : gmap string Q) : result unit := Ok tt.

(** Lines 102-105 of [compute_modshift_metrics]: the scatter of the
    unbinned folded flux, and the assertion on it. *)
Definition checked_scatter (phi_days flux : list Q) (results : gmap string Q)
    (duration_hrs : Q) : result Q :=
  pri <- dict_get results "pri" ;;
  sec <- dict_get results "sec" ;;
  sigma <- estimate_scatter phi_days flux pri sec (2 * duration_hrs) ;;
  _ <- py_assert (Qltb 0 sigma) ;;
  Ok sigma.

(** [fold_and_bin_data] declares [(..., num_bins, offset_frac)]; both calls
    below pass [(..., offset, numBins)], as the source does.  The two
    [np.isfinite] assertions hold of every rational array. *)
Definition compute_modshift_metrics (time flux model : list Q)
    (period_days epoch_days duration_hrs : Q) : result (gmap string Q) :=
  _ <- py_assert (Nat.eqb (length time) (length flux)) ;;
  let offset := 0.25 in
  let overres := 10 in
  numBins <- py_div (overres * period_days * 24) duration_hrs ;;
  let numBins := py_int numBins in
  data <- fold_and_bin_data time flux period_days epoch_days
            offset (inject_Z numBins) ;;
  bphase <- get_column data 0 ;;
  bflux <- get_column data 1 ;;
  bModel <- fold_and_bin_data time model period_days epoch_days
              offset (inject_Z numBins) ;;
  c1 <- get_column bModel 1 ;;
  c2 <- get_column bModel 2 ;;
  bModel <- set_column bModel 1 (zip_with Qdiv c1 c2) ;;
  conv <- compute_convolution_for_binned_data bphase bflux model offset ;;
  results <- find_indices_of_key_locations conv period_days duration_hrs ;;
  let phi_days := compute_phase time period_days epoch_days offset in
  sigma <- checked_scatter phi_days flux results duration_hrs ;;
  c <- get_column conv 1 ;;
  conv <- set_column conv 1 (map (fun x => x / sigma) c) ;;
  significances <- compute_event_significances conv results ;;
  let results := significances ∪ results in
  fa <- compute_false_alarm_threshold period_days duration_hrs ;;
  let results := <["false_alarm_threshold" := fa]> results in
  _ <- plot_modshift phi_days flux model conv results ;;
  Ok results.

End Modshift.

(** ** The box-car model and the TCE interface *)

(** The keys of a TCE, constants of the module [exovetter.modshift.names],
    which is not among the sources: they are parameters. *)
Class TceNames : Type := {
  PERIOD : string;
  EPOCH : string;
  DURATION_HRS : string;
  DEPTH : string
}.

Definition np_min (a : list Q) : result Q :=
  match a with
  | [] => Raise ValueError
  | x :: a' => Ok (foldl (fun m y => if Qltb y m then y else m) x a')
  end.

(** [range(start, stop)]. *)
Definition py_range (start stop : Z) : list Z :=
  map (fun k => (start + Z.of_nat k)%Z) (seq 0 (Z.to_nat (stop - start))).

(** [box_car] can raise what no function above raises: [int] refuses an
    infinite float with [OverflowError]. *)
Inductive box_car_exception : Set :=
| Builtin (e : exception)
| OverflowError.

(** [int(np.floor(x / period))] for a numpy float [x]: a division by zero
    gives NaN (0 / 0) or an infinity without raising, and [int] then raises
    [ValueError] or [OverflowError]. *)
Definition epoch_number (x period : Q) : box_car_exception + Z :=
  if Qeq_bool period 0 then
    inl (if Qeq_bool x 0 then Builtin ValueError else OverflowError)
  else inr (Qfloor (x / period)).

(** One pass of the loop of [box_car]: [flux[idx] -= depth_frac] with
    [idx = (t0 <= time) & (time <= t1)]. *)
Definition box_car_step (time : list Q) (period epoch duration_days depth_frac : Q)
    (flux : list Q) (i : Z) : list Q :=
  let t0 := period * inject_Z i + epoch in
  let t1 := t0 + duration_days in
  zip_with (fun t f => if Qle_bool t0 t && Qle_bool t t1 then f - depth_frac else f)
    time flux.

(** The two calls of [print] write to the standard output and do not touch
    the returned array; they are left out. *)
Definition box_car `{TceNames} (time : list Q) (tce : gmap string Q)
    (offset : Q) : box_car_exception + list Q :=
  match (period <- dict_get tce PERIOD ;;
         duration_hrs <- dict_get tce DURATION_HRS ;;
         depth <- dict_get tce DEPTH ;;
         mnT <- np_min time ;;
         mxT <- np_max time ;;
         Ok (period, duration_hrs, depth, mnT, mxT)) with
  | Raise e => inl (Builtin e)
  | Ok (period, duration_hrs, depth, mnT, mxT) =>
      let epoch := offset * period in
      let duration_days := duration_hrs / 24 in
      let depth_frac := depth * (1 # 1000000) in
      let epoch := epoch - duration_days / 2 in
      match epoch_number (mnT - epoch) period with
      | inl e => inl e
      | inr e0 =>
          match epoch_number (mxT - epoch) period with
          | inl e => inl e
          | inr e1 =>
              let flux := map (fun t => 0 * t) time in
              inr (foldl (box_car_step time period epoch duration_days depth_frac)
                     flux (py_range e0 (e1 + 1)))
          end
      end
  end.

Definition compute_phase_for_tce `{TceNames} (time : list Q)
    (tce : gmap string Q) (offset : Q) : result (list Q) :=
  period <- dict_get tce PERIOD ;;
  epoch <- dict_get tce EPOCH ;;
  Ok (compute_phase time period epoch offset).

(** Key names on which the box-car model can be run. *)
Definition sample_names : TceNames :=
  {| PERIOD := "period"; EPOCH := "epoch";
     DURATION_HRS := "duration_hrs"; DEPTH := "depth" |}.

(** ** The statistic of the convolution engine on binary64 floats *)

(** [np.all(np.isfinite(a))]. *)
Definition np_all_isfinite (a : list float) : bool :=
  forallb PrimFloat.is_finite a.

(** One value of [np.convolve(a, v)] on float64 arrays: the products
    [a[j] * v[k - j]] of the overlapping positions, added up from the left.
    (The order in which numpy adds can differ; it only matters to the
    rounding of sums of several products.) *)
Definition convolve_at_binary64 (a v : list float) (k : nat) : float :=
  foldl (fun acc j =>
           if Nat.leb j k && Nat.ltb (k - j) (length v)
           then PrimFloat.add acc
                  (PrimFloat.mul (nth j a PrimFloat.zero)
                     (nth (k - j) v PrimFloat.zero))
           else acc)
    PrimFloat.zero (seq 0 (length a)).

(** Column 1 of what [compute_convolution_for_binned_data] returns, on
    float64 arrays: the two [np.isfinite] assertions, the two length
    assertions, [np.max(phase)] (which raises on an empty array, and whose
    value only enters the phases), the doubling of the flux, the convolution
    with the negated model and the slice [conv[i0:i1]]. *)
Definition convolution_statistic_binary64 (phase flux model : list float)
    : result (list float) :=
  _ <- py_assert (np_all_isfinite flux) ;;
  _ <- py_assert (np_all_isfinite model) ;;
  _ <- py_assert (Nat.eqb (length phase) (length flux)) ;;
  _ <- py_assert (Nat.eqb (length flux) (length model)) ;;
  _ <- match phase with [] => Raise ValueError | _ :: _ => Ok tt end ;;
  let flux := flux ++ flux in
  let negated := map PrimFloat.opp model in
  conv <- match flux, negated with
          | [], _ | _, [] => Raise ValueError
          | _, _ =>
              Ok (map (convolve_at_binary64 flux negated)
                    (seq 0 (length flux + length negated - 1)))
          end ;;
  let i0 := length model in
  let i1 := (i0 + length model)%nat in
  Ok (slice conv i0 i1).

(** ** The orchestrator over a binner *)

(** [compute_modshift_metrics] with the function that it calls for the
    binning as a parameter: the body is the same, and
    [compute_modshift_metrics] is its instance at [fold_and_bin_data]. *)
Definition compute_modshift_metrics_with `{SpecialFunctions}
    (binner : list Q -> list Q -> Q -> Q -> Q -> Q -> result ndarray2)
    (time flux model : list Q)
    (period_days epoch_days duration_hrs : Q) : result (gmap string Q) :=
  _ <- py_assert (Nat.eqb (length time) (length flux)) ;;
  let offset := 0.25 in
  let overres := 10 in
  numBins <- py_div (overres * period_days * 24) duration_hrs ;;
  let numBins := py_int numBins in
  data <- binner time flux period_days epoch_days offset (inject_Z numBins) ;;
  bphase <- get_column data 0 ;;
  bflux <- get_column data 1 ;;
  bModel <- binner time model period_days epoch_days
              offset (inject_Z numBins) ;;
  c1 <- get_column bModel 1 ;;
  c2 <- get_column bModel 2 ;;
  bModel <- set_column bModel 1 (zip_with Qdiv c1 c2) ;;
  conv <- compute_convolution_for_binned_data bphase bflux model offset ;;
  results <- find_indices_of_key_locations conv period_days duration_hrs ;;
  let phi_days := compute_phase time period_days epoch_days offset in
  sigma <- checked_scatter phi_days flux results duration_hrs ;;
  c <- get_column conv 1 ;;
  conv <- set_column conv 1 (map (fun x => x / sigma) c) ;;
  significances <- compute_event_significances conv results ;;
  let results := significances ∪ results in
  fa <- compute_false_alarm_threshold period_days duration_hrs ;;
  let results := <["false_alarm_threshold" := fa]> results in
  _ <- plot_modshift phi_days flux model conv results ;;
  Ok results.

(** An instance on which the module can be run: a lower approximation of
    the square root, exact at 0, and a first-order stand-in for [erfcinv].
    The theorems hold for every instance. *)
Definition sqrt_down (x : Q) : Q :=
  let r := Qred x in
  if (0 <? Qnum r)%Z
  then Z.sqrt (Qnum r * Z.pos (Qden r) * 2 ^ 104) # (Qden r * 2 ^ 52)
  else 0.

Definition sample_functions : SpecialFunctions :=
  {| np_sqrt := sqrt_down; erfcinv := fun x => 1 - x |}.

(** ** Vocabulary of the statements *)

(** [p] lies in the open interval (centre - width, centre + width): the
    element-wise test that [window] makes. *)
Definition in_window (centre width p : Q) : bool :=
  Qltb (centre - width) p && Qltb p (centre + width).

(** [p] lies outside that open interval. *)
Definition outside (centre width p : Q) : Prop :=
  ~ (centre - width < p /\ p < centre + width).

(** The statistic after [ms[window] = 0]. *)
Definition zeroed (centre width : Q) (phase ms : list Q) : list Q :=
  zip_with (fun p s => if in_window centre width p then 0 else s) phase ms.

(** The samples that [estimate_scatter] hands to [np.std]. *)
Definition included_samples (phi_days flux : list Q)
    (phi_pri_days phi_sec_days gap_width_hrs : Q) : list Q :=
  select flux (scatter_mask phi_days phi_pri_days phi_sec_days gap_width_hrs).

(** [t] lies in one of the transit windows of the box-car model: the closed
    intervals of length [duration_days] that start at [start + k * period],
    for the whole numbers [k]. *)
Definition in_transit (period start duration_days t : Q) : Prop :=
  exists k : Z,
    period * inject_Z k + start <= t /\
    t <= period * inject_Z k + start + duration_days.

(** * Properties *)

(** ** Comparison, binding *)

Lemma Qltb_lt (x y : Q) : Qltb x y = true <-> x < y.
Proof.
  unfold Qltb. rewrite negb_true_iff, <- not_true_iff_false, Qle_bool_iff.
  split; intros; lra.
Qed.

Lemma Qltb_ge (x y : Q) : Qltb x y = false <-> y <= x.
Proof.
  unfold Qltb. rewrite negb_false_iff, Qle_bool_iff. tauto.
Qed.

Lemma bind_raises_l {A B : Type} (c : result A) (k : A -> result B) :
  raises c -> raises (x <- c ;; k x).
Proof. intros [e ->]. exists e. reflexivity. Qed.

Lemma bind_raises_r {A B : Type} (c : result A) (k : A -> result B) :
  (forall a, c = Ok a -> raises (k a)) -> raises (x <- c ;; k x).
Proof.
  intros Hk. destruct c as [a|e]; simpl.
  - apply Hk. reflexivity.
  - exists e. reflexivity.
Qed.

(** ** Columns of a two-dimensional array *)

Lemma set_column_shape (A B : ndarray2) (k : nat) (v : list Q) :
  set_column A k v = Ok B ->
  nrows B = nrows A /\ length (columns B) = length (columns A).
Proof.
  unfold set_column. intros Hset.
  destruct (Nat.ltb k (length (columns A))); [|discriminate].
  destruct (Nat.eqb (length v) (nrows A)).
  - inversion Hset; subst; simpl. rewrite length_insert. auto.
  - destruct v as [|x [|y v']]; try discriminate.
    inversion Hset; subst; simpl. rewrite length_insert. auto.
Qed.

Lemma set_column_out_of_bounds (A : ndarray2) (k : nat) (v : list Q) :
  (length (columns A) <= k)%nat -> set_column A k v = Raise IndexError.
Proof.
  intros Hk. unfold set_column.
  destruct (Nat.ltb_spec k (length (columns A))); [lia | reflexivity].
Qed.

Lemma np_zeros2_columns (n c : nat) : length (columns (np_zeros2 n c)) = c.
Proof. simpl. apply length_replicate. Qed.

(** ** Sorting indices *)

Lemma insert_key_bound (n : nat) (k : Q) (i : nat) (l : list (Q * nat)) :
  (i < n)%nat ->
  Forall (fun j => (j < n)%nat) (map snd l) ->
  Forall (fun j => (j < n)%nat) (map snd (insert_key k i l)).
Proof.
  intros Hi. induction l as [|[k' i'] l IH]; simpl; intros Hl.
  - constructor; [assumption | constructor].
  - destruct (Qle_bool k k'); simpl.
    + constructor; assumption.
    + inversion Hl; subst. constructor; auto.
Qed.

Lemma insert_key_length (k : Q) (i : nat) (l : list (Q * nat)) :
  length (insert_key k i l) = S (length l).
Proof.
  induction l as [|[k' i'] l IH]; simpl; [reflexivity|].
  destruct (Qle_bool k k'); simpl; congruence.
Qed.

Lemma np_argsort_length (a : list Q) : length (np_argsort a) = length a.
Proof.
  unfold np_argsort. rewrite length_map.
  assert (Hlen : forall l : list (Q * nat),
             length (foldr (fun ki acc => insert_key (fst ki) (snd ki) acc) [] l)
             = length l).
  { induction l as [|ki l IH]; simpl; [reflexivity|].
    rewrite insert_key_length. congruence. }
  rewrite Hlen, length_zip, length_seq. lia.
Qed.

Lemma np_argsort_bound (a : list Q) :
  Forall (fun j => (j < length a)%nat) (np_argsort a).
Proof.
  unfold np_argsort.
  assert (Hall : forall (n : nat) (l : list (Q * nat)),
             Forall (fun j => (j < n)%nat) (map snd l) ->
             Forall (fun j => (j < n)%nat)
               (map snd (foldr (fun ki acc => insert_key (fst ki) (snd ki) acc)
                           [] l))).
  { intros n. induction l as [|[k i] l IH]; simpl; intros Hl.
    - constructor.
    - inversion Hl; subst. apply insert_key_bound; auto. }
  apply Hall. rewrite snd_zip by (rewrite length_seq; lia).
  apply Forall_forall. intros j Hj. apply elem_of_seq in Hj. lia.
Qed.

Lemma take_indices_ok {A : Type} (a : list A) (ix : list nat) :
  Forall (fun j => (j < length a)%nat) ix ->
  exists xs, take_indices a ix = Ok xs /\ length xs = length ix.
Proof.
  induction ix as [|i ix IH]; intros Hix; simpl.
  - exists []. auto.
  - inversion Hix as [|? ? Hi Hrest]; subst.
    destruct (IH Hrest) as (xs & -> & Hlen).
    unfold get_item. destruct (lookup_lt_is_Some_2 a i Hi) as [x ->]. simpl.
    exists (x :: xs). simpl. auto.
Qed.

(** ** The binner *)

(** The output array has two columns; the write to column 2 is never
    reached with a valid index. *)
Lemma fold_and_bin_data_raises (time flux : list Q)
    (period epoch num_bins offset_frac : Q) :
  raises (fold_and_bin_data time flux period epoch num_bins offset_frac).
Proof.
  unfold fold_and_bin_data.
  apply bind_raises_r; intros phase _.
  apply bind_raises_r; intros flux' _.
  apply bind_raises_r; intros cts _.
  apply bind_raises_r; intros binnedFlux _.
  apply bind_raises_r; intros v0 _.
  apply bind_raises_r; intros out0 Hout0.
  apply bind_raises_r; intros v1 _.
  apply bind_raises_r; intros out1 Hout1.
  apply bind_raises_r; intros v2 _.
  apply bind_raises_l. exists IndexError.
  apply set_column_out_of_bounds.
  apply set_column_shape in Hout0, Hout1.
  destruct Hout0 as [_ Hc0], Hout1 as [_ Hc1].
  rewrite Hc1, Hc0, np_zeros2_columns. lia.
Qed.

Lemma np_histogram_one_edge (a : list Q) (e : Q) (weights : option (list Q)) :
  match weights with
  | None => True
  | Some w => length w = length a
  end ->
  np_histogram a [e] weights = Ok [].
Proof.
  unfold np_histogram. destruct weights as [w|]; intros Hw.
  - rewrite Hw, Nat.eqb_refl. reflexivity.
  - reflexivity.
Qed.

(** With [num_bins = 0.25], as the orchestrator calls it, there is a single
    bin edge, no bin, and an output array of shape (0, 2). *)
Lemma fold_and_bin_data_quarter (time flux : list Q)
    (period epoch offset_frac : Q) :
  length time = length flux ->
  fold_and_bin_data time flux period epoch 0.25 offset_frac = Raise IndexError.
Proof.
  intros Hlen. unfold fold_and_bin_data.
  replace (np_arange 0.25) with [0] by reflexivity.
  set (phase := compute_phase time period epoch offset_frac).
  assert (Hphase : length phase = length time).
  { unfold phase, compute_phase, np_fmod. rewrite !length_map. reflexivity. }
  destruct (take_indices_ok phase (np_argsort phase) (np_argsort_bound phase))
    as (phase' & -> & Hlen1).
  destruct (take_indices_ok flux (np_argsort phase)) as (flux' & -> & Hlen2).
  { rewrite <- Hlen, <- Hphase. apply np_argsort_bound. }
  cbn [bind map].
  rewrite (np_histogram_one_edge phase' (0 / 0.25 * period) None) by exact I.
  cbn [bind].
  rewrite (np_histogram_one_edge phase' (0 / 0.25 * period) (Some flux'))
    by congruence.
  reflexivity.
Qed.

(** ** The orchestrator *)

Lemma compute_modshift_metrics_outcome `{SpecialFunctions}
    (time flux model : list Q) (period_days epoch_days duration_hrs : Q) :
  length time = length flux ->
  compute_modshift_metrics time flux model period_days epoch_days duration_hrs
  = Raise (if Qeq_bool duration_hrs 0 then ZeroDivisionError else IndexError).
Proof.
  intros Hlen. unfold compute_modshift_metrics.
  rewrite Hlen, Nat.eqb_refl. simpl.
  unfold py_div. destruct (Qeq_bool duration_hrs 0); [reflexivity|]. simpl.
  rewrite fold_and_bin_data_quarter by exact Hlen. reflexivity.
Qed.

(** C1: every call of [compute_modshift_metrics] that passes the entry
    assertions (the arrays are finite by construction, and [time] and [flux]
    have one length) raises: [ZeroDivisionError] when [duration_hrs] is 0,
    and otherwise the [IndexError] of [fold_and_bin_data], which the
    orchestrator calls with [offset] in the place of [num_bins] and which
    writes column 2 of a two-column array whatever its arguments are.  No
    call returns the result mapping. *)
Theorem C1_compute_modshift_metrics_always_raises `{SpecialFunctions}
    (time flux model : list Q) (period_days epoch_days duration_hrs : Q) :
  length time = length flux ->
  (forall num_bins offset_frac,
      raises (fold_and_bin_data time flux period_days epoch_days
                num_bins offset_frac)) /\
  fold_and_bin_data time flux period_days epoch_days 0.25
    (inject_Z (py_int (10 * period_days * 24 / duration_hrs)))
  = Raise IndexError /\
  raises (compute_modshift_metrics time flux model
            period_days epoch_days duration_hrs) /\
  forall results,
    compute_modshift_metrics time flux model
      period_days epoch_days duration_hrs <> Ok results.
Proof.
  intros Hlen. split; [|split; [|split]].
  - intros. apply fold_and_bin_data_raises.
  - apply fold_and_bin_data_quarter. exact Hlen.
  - rewrite compute_modshift_metrics_outcome by exact Hlen. eexists. reflexivity.
  - intros results. rewrite compute_modshift_metrics_outcome by exact Hlen.
    discriminate.
Qed.

Lemma C1_witness :
  length [0; 1; 2] = length [0; -1; 0] /\
  raises (compute_modshift_metrics (H := sample_functions)
            [0; 1; 2] [0; -1; 0] [0; -1; 0] 10 1 2).
Proof.
  split; [reflexivity|].
  apply (C1_compute_modshift_metrics_always_raises (H := sample_functions)
           [0; 1; 2] [0; -1; 0] [0; -1; 0] 10 1 2).
  reflexivity.
Defined.

(** C2 (the code departs from the claim): [fold_and_bin_data] emits no bin
    at all.  Two samples of flux 1 and 3 fold into the bin [2.5, 5) of four
    bins over a period of 10; the claim expects one retained bin of mean 2 and
    count 2, the function raises [IndexError] on the write of the counts to
    column 2 of its two-column output. *)
Theorem C2_fold_and_bin_data_emits_no_bin :
  (exists cts sums,
      np_histogram (compute_phase [0; 0.1] 10 0 0.25) [0; 2.5; 5; 7.5] None
      = Ok cts /\
      np_histogram (compute_phase [0; 0.1] 10 0 0.25) [0; 2.5; 5; 7.5]
        (Some [1; 3]) = Ok sums /\
      Forall2 Qeq cts [0; 2; 0] /\ Forall2 Qeq sums [0; 4; 0]) /\
  fold_and_bin_data [0; 0.1] [1; 3] 10 0 4 0.25 = Raise IndexError.
Proof.
  split.
  - eexists _, _. split; [vm_compute; reflexivity|].
    split; [vm_compute; reflexivity|].
    split; repeat constructor.
  - vm_compute. reflexivity.
Qed.

(** C8, counterexample: with a period of 1 day and a duration of 240 hours
    the number of bins is 1; the orchestrator calls the binner all the same,
    and what surfaces is the binner's [IndexError]. *)
Lemma C8_counterexample :
  py_int (10 * 1 * 24 / 240) = 1%Z /\
  fold_and_bin_data [0] [0] 1 0 0.25 (inject_Z 1) = Raise IndexError /\
  compute_modshift_metrics (H := sample_functions) [0] [0] [0] 1 0 240
  = Raise IndexError.
Proof. repeat split; vm_compute; reflexivity. Qed.

(** C8, amended: when the computed number of bins is below 2 (and the entry
    assertions pass, with a non-zero duration) no configuration error is
    raised: the number of bins is not checked, it is handed to the binner as
    it is, and an exception of the binner surfaces unchanged.  This holds
    whatever the binner does; [compute_modshift_metrics] is the case of
    [fold_and_bin_data]. *)
Theorem C8_num_bins_is_not_checked `{SpecialFunctions}
    (time flux model : list Q) (period_days epoch_days duration_hrs : Q) :
  length time = length flux ->
  ~ duration_hrs == 0 ->
  (py_int (10 * period_days * 24 / duration_hrs) < 2)%Z ->
  exists num_bins : Z,
    (num_bins < 2)%Z /\
    (forall binner e,
        binner time flux period_days epoch_days 0.25 (inject_Z num_bins)
        = Raise e ->
        compute_modshift_metrics_with binner time flux model
          period_days epoch_days duration_hrs = Raise e) /\
    compute_modshift_metrics time flux model
      period_days epoch_days duration_hrs
    = compute_modshift_metrics_with fold_and_bin_data time flux model
        period_days epoch_days duration_hrs.
Proof.
  intros Hlen Hdur Hbins.
  exists (py_int (10 * period_days * 24 / duration_hrs)).
  split; [exact Hbins|]. split; [|reflexivity].
  intros binner e Hbinner. unfold compute_modshift_metrics_with.
  rewrite Hlen, Nat.eqb_refl. cbn [py_assert bind].
  unfold py_div. destruct (Qeq_bool duration_hrs 0) eqn:Hz.
  - apply Qeq_bool_iff in Hz. contradiction.
  - cbn [bind]. rewrite Hbinner. reflexivity.
Qed.

Lemma C8_witness :
  exists num_bins : Z,
    (num_bins < 2)%Z /\
    forall binner e,
      binner [0; 1] [0; -1] 1 0 0.25 (inject_Z num_bins) = Raise e ->
      compute_modshift_metrics_with (H := sample_functions) binner
        [0; 1] [0; -1] [0; -1] 1 0 240 = Raise e.
Proof.
  destruct (C8_num_bins_is_not_checked (H := sample_functions)
              [0; 1] [0; -1] [0; -1] 1 0 240)
    as (num_bins & Hbins & Hcalled & _).
  - reflexivity.
  - intros Hz. vm_compute in Hz. discriminate.
  - vm_compute. reflexivity.
  - exists num_bins. split; [exact Hbins | exact Hcalled].
Defined.

(** ** The scorer *)

(** C7 (the code departs from the claim): the assertion of
    [compute_event_significances] tests a list for membership in the keys of
    a dictionary; hashing the list raises [TypeError], so no significance is
    ever returned, whatever the series and the event locations. *)
Theorem C7_compute_event_significances_raises (conv : ndarray2)
    (results : gmap string Q) :
  compute_event_significances conv results = Raise TypeError.
Proof. reflexivity. Qed.

(** ** The false-alarm threshold *)

Lemma Qmult_comm_eq (x y : Q) : x * y = y * x.
Proof.
  destruct x as [a b], y as [c d]. unfold Qmult. simpl.
  f_equal; [apply Z.mul_comm | apply Pos.mul_comm].
Qed.

(** C9: for 0 < duration_hrs / 24 < period_days the threshold is
    sqrt(2) * erfcinv((duration_hrs / 24) / period_days); at a period of 10
    days and a duration of 2 hours this is sqrt(2) * erfcinv(2 / 24 / 10). *)
Theorem C9_false_alarm_threshold `{SpecialFunctions}
    (period_days duration_hrs : Q) :
  0 < duration_hrs / 24 ->
  duration_hrs / 24 < period_days ->
  compute_false_alarm_threshold period_days duration_hrs
  = Ok (np_sqrt 2 * erfcinv (duration_hrs / 24 / period_days)).
Proof.
  intros Hpos Hlt. unfold compute_false_alarm_threshold, py_div.
  destruct (Qeq_bool period_days 0) eqn:Hz.
  - apply Qeq_bool_iff in Hz. lra.
  - simpl. f_equal. apply Qmult_comm_eq.
Qed.

Lemma C9_witness :
  compute_false_alarm_threshold (H := sample_functions) 10 2
  = Ok (@np_sqrt sample_functions 2 * @erfcinv sample_functions (2 / 24 / 10)).
Proof.
  apply (C9_false_alarm_threshold (H := sample_functions) 10 2);
    reflexivity.
Defined.

(** ** The phase folder *)

Lemma py_int_nonneg (q : Q) : 0 <= q -> py_int q = Qfloor q.
Proof.
  destruct q as [n d]. unfold py_int, Qfloor, Qle. simpl. intros Hq.
  apply Z.quot_div_nonneg; lia.
Qed.

Lemma py_int_nonpos (q : Q) : q <= 0 -> py_int q = Qceiling q.
Proof.
  destruct q as [n d]. unfold py_int, Qceiling, Qfloor, Qopp, Qle. simpl.
  intros Hq. rewrite <- (Z.opp_involutive n) at 1. rewrite Z.quot_opp_l by lia.
  f_equal. apply Z.quot_div_nonneg; lia.
Qed.

Lemma Qdiv_mult_cancel (x y : Q) : ~ y == 0 -> x == (x / y) * y.
Proof. intros Hy. field. exact Hy. Qed.

(** A non-negative dividend has its remainder in [0, y). *)
Lemma fmod_nonneg (x y : Q) :
  0 < y -> 0 <= x -> 0 <= fmod x y /\ fmod x y < y.
Proof.
  intros Hy Hx. unfold fmod.
  assert (Hq : 0 <= x / y).
  { apply Qle_shift_div_l; [exact Hy | lra]. }
  rewrite (py_int_nonneg _ Hq).
  pose proof (Qfloor_le (x / y)) as Hlo.
  pose proof (Qlt_floor (x / y)) as Hhi.
  rewrite inject_Z_plus in Hhi.
  pose proof (Qdiv_mult_cancel x y ltac:(lra)) as Hxy.
  set (q := x / y) in *. set (t := inject_Z (Qfloor q)) in *.
  change (inject_Z 1) with 1 in Hhi.
  clearbody q t. split; nra.
Qed.

(** A negative dividend has its remainder in (-y, 0]. *)
Lemma fmod_neg (x y : Q) :
  0 < y -> x < 0 -> - y < fmod x y /\ fmod x y <= 0.
Proof.
  intros Hy Hx. unfold fmod.
  assert (Hq : x / y <= 0).
  { apply Qle_shift_div_r; [exact Hy | lra]. }
  rewrite (py_int_nonpos _ Hq).
  pose proof (Qle_ceiling (x / y)) as Hhi.
  pose proof (Qceiling_lt (x / y)) as Hlo.
  unfold Z.sub in Hlo. rewrite inject_Z_plus in Hlo.
  pose proof (Qdiv_mult_cancel x y ltac:(lra)) as Hxy.
  set (q := x / y) in *. set (t := inject_Z (Qceiling q)) in *.
  change (inject_Z (- (1))) with (- (1)) in Hlo.
  clearbody q t. split; nra.
Qed.

(** X1: the fold is total; for a positive period every phase lies strictly
    between -period and period, and a sample is folded into [0, period)
    exactly when it is not earlier than a quarter period before the epoch
    (or folds to 0). *)
Lemma compute_phase_range (time : list Q) (period epoch : Q) :
  0 < period ->
  Forall2 (fun t p =>
             - period < p /\ p < period /\
             (0 <= p <-> epoch - 0.25 * period <= t \/ p == 0))
    time (compute_phase time period epoch 0.25).
Proof.
  intros Hp. unfold compute_phase, np_fmod. rewrite map_map.
  induction time as [|t time IH]; simpl; constructor; [|exact IH].
  destruct (Qlt_le_dec (t - epoch + 0.25 * period) 0) as [Hneg|Hpos].
  - destruct (fmod_neg _ _ Hp Hneg) as [Hlo Hhi].
    split; [lra | split; [lra | split]].
    + intros H0. right. lra.
    + intros [Ht|Hz]; lra.
  - destruct (fmod_nonneg _ _ Hp Hpos) as [Hlo Hhi].
    split; [lra | split; [lra | split]].
    + intros _. left. lra.
    + intros _. lra.
Qed.

(** C4 (the code departs from the claim): a sample taken at time 0 for an
    epoch of 5 and a period of 10 is folded to the phase -2.5, outside
    [0, 10); [np.fmod] gives the remainder the sign of the dividend. *)
Theorem C4_compute_phase_negative :
  exists p, compute_phase [0] 10 5 0.25 = [p] /\ p == -2.5 /\ p < 0.
Proof.
  eexists. split; [reflexivity|]. split; reflexivity.
Qed.

(** ** The scatter estimator *)

Lemma in_window_spec (centre width p : Q) :
  in_window centre width p = true <-> centre - width < p /\ p < centre + width.
Proof.
  unfold in_window. rewrite andb_true_iff, !Qltb_lt. tauto.
Qed.

Lemma window_map (centre width : Q) (phase : list Q) :
  window centre width phase = map (in_window centre width) phase.
Proof.
  unfold window, np_and. induction phase as [|p phase IH]; simpl.
  - reflexivity.
  - f_equal. exact IH.
Qed.

Lemma scatter_mask_map (phi_days : list Q) (pri sec gap_width_hrs : Q) :
  scatter_mask phi_days pri sec gap_width_hrs
  = map (fun p => negb (in_window pri (gap_width_hrs / 24) p
                        || in_window sec (gap_width_hrs / 24) p)) phi_days.
Proof.
  unfold scatter_mask, np_not, np_or. rewrite !window_map.
  induction phi_days as [|p phi IH]; simpl.
  - reflexivity.
  - f_equal. exact IH.
Qed.

Lemma scatter_mask_length (phi_days : list Q) (pri sec gap_width_hrs : Q) :
  length (scatter_mask phi_days pri sec gap_width_hrs) = length phi_days.
Proof. rewrite scatter_mask_map. apply length_map. Qed.

Lemma select_nil_no_true {A : Type} (a : list A) (idx : list bool) :
  length idx = length a -> select a idx = [] -> np_any idx = false.
Proof.
  revert idx. induction a as [|x a IH]; intros [|b idx] Hlen Hsel;
    simpl in *; try discriminate; try reflexivity.
  destruct b; [discriminate|]. simpl. apply IH; [lia | exact Hsel].
Qed.

Lemma select_all {A : Type} (a : list A) (idx : list bool) :
  length idx = length a -> Forall (fun b => b = true) idx -> select a idx = a.
Proof.
  revert idx. induction a as [|x a IH]; intros [|b idx] Hlen Hall;
    simpl in *; try discriminate; try reflexivity.
  inversion Hall; subst. f_equal. apply IH; [lia | assumption].
Qed.

Lemma select_length_mono {A : Type} (a : list A) (wide narrow : list bool) :
  Forall2 (fun bw bn => bw = true -> bn = true) wide narrow ->
  (length (select a wide) <= length (select a narrow))%nat.
Proof.
  intros Hmasks. revert a.
  induction Hmasks as [|bw bn wide narrow Hb _ IH]; intros [|x a]; simpl;
    try lia.
  specialize (IH a).
  destruct bw; [rewrite Hb by reflexivity|destruct bn]; simpl; lia.
Qed.

Lemma estimate_scatter_included `{SpecialFunctions} (phi_days flux : list Q)
    (pri sec gap_width_hrs sigma : Q) :
  estimate_scatter phi_days flux pri sec gap_width_hrs = Ok sigma ->
  sigma = np_std (included_samples phi_days flux pri sec gap_width_hrs) /\
  included_samples phi_days flux pri sec gap_width_hrs <> [].
Proof.
  unfold estimate_scatter, included_samples, mask_select.
  destruct (Nat.eqb_spec (length phi_days) (length flux)) as [Hlen|];
    [|discriminate]. simpl.
  rewrite scatter_mask_length, Hlen, Nat.eqb_refl.
  destruct (np_any _) eqn:Hany; [|discriminate]. simpl.
  intros [= <-]. split; [reflexivity|].
  intros Hnil. apply select_nil_no_true in Hnil.
  - congruence.
  - rewrite scatter_mask_length. exact Hlen.
Qed.

(** The scatter that reaches the rescaling is strictly positive. *)
Lemma checked_scatter_positive `{SpecialFunctions} (phi_days flux : list Q)
    (results : gmap string Q) (duration_hrs sigma : Q) :
  checked_scatter phi_days flux results duration_hrs = Ok sigma -> 0 < sigma.
Proof.
  unfold checked_scatter.
  destruct (dict_get results "pri") as [pri|]; [|discriminate].
  destruct (dict_get results "sec") as [sec|]; [|discriminate]. simpl.
  destruct (estimate_scatter _ _ _ _ _) as [s|]; [|discriminate]. simpl.
  destruct (Qltb 0 s) eqn:Hs; [|discriminate]. simpl.
  intros [= <-]. apply Qltb_lt. exact Hs.
Qed.

(** C6: when no sample lies outside the exclusion windows around [pri] and
    [sec], or the standard deviation of the samples that do is not strictly
    positive (a scatter of exactly 0 included), the scatter step of the
    computation raises [AssertionError]; no scatter value is handed on. *)
Theorem C6_degenerate_scatter_raises `{SpecialFunctions}
    (phi_days flux : list Q) (results : gmap string Q)
    (pri sec duration_hrs : Q) :
  results !! "pri"%string = Some pri ->
  results !! "sec"%string = Some sec ->
  included_samples phi_days flux pri sec (2 * duration_hrs) = [] \/
  ~ 0 < np_std (included_samples phi_days flux pri sec (2 * duration_hrs)) ->
  checked_scatter phi_days flux results duration_hrs = Raise AssertionError.
Proof.
  intros Hpri Hsec Hdegenerate.
  unfold checked_scatter, dict_get. rewrite Hpri, Hsec. simpl.
  unfold estimate_scatter, mask_select.
  destruct (Nat.eqb_spec (length phi_days) (length flux)) as [Hlen|];
    [|reflexivity]. simpl.
  rewrite scatter_mask_length, Hlen, Nat.eqb_refl.
  destruct (np_any _) eqn:Hany; [|reflexivity]. simpl.
  unfold included_samples in Hdegenerate.
  destruct Hdegenerate as [Hnone|Hflat].
  - apply select_nil_no_true in Hnone; [congruence|].
    rewrite scatter_mask_length. exact Hlen.
  - destruct (Qltb 0 _) eqn:Hs; [|reflexivity].
    apply Qltb_lt in Hs. contradiction.
Qed.

Lemma C6_witness :
  checked_scatter (H := sample_functions)
    [0; 1; 2; 3; 4] [0; 0; 10; 0; 0]
    (<["sec"%string := 2]> (<["pri"%string := 2]> (∅ : gmap string Q))) 6
  = Raise AssertionError.
Proof.
  apply (C6_degenerate_scatter_raises (H := sample_functions)
           [0; 1; 2; 3; 4] [0; 0; 10; 0; 0] _ 2 2 6).
  - reflexivity.
  - reflexivity.
  - right. vm_compute. intros Hlt. discriminate Hlt.
Defined.

Lemma in_window_widen (centre narrow wide p : Q) :
  narrow <= wide ->
  in_window centre narrow p = true -> in_window centre wide p = true.
Proof.
  intros Hw. rewrite !in_window_spec. intros [Hlo Hhi]. split; lra.
Qed.

Lemma scatter_mask_mono (phi_days : list Q) (pri sec narrow wide : Q) :
  narrow <= wide ->
  Forall2 (fun bw bn => bw = true -> bn = true)
    (scatter_mask phi_days pri sec wide)
    (scatter_mask phi_days pri sec narrow).
Proof.
  intros Hw. rewrite !scatter_mask_map.
  assert (Hdays : narrow / 24 <= wide / 24).
  { apply Qmult_le_compat_r; [exact Hw | discriminate]. }
  induction phi_days as [|p phi IH]; simpl; constructor; [|exact IH].
  rewrite !negb_true_iff, !orb_false_iff.
  intros [Hpri Hsec]. split; apply not_true_iff_false; intros Hin.
  - apply (in_window_widen _ _ _ _ Hdays) in Hin. congruence.
  - apply (in_window_widen _ _ _ _ Hdays) in Hin. congruence.
Qed.

Lemma scatter_mask_zero (phi_days : list Q) (pri sec : Q) :
  Forall (fun b => b = true) (scatter_mask phi_days pri sec 0).
Proof.
  rewrite scatter_mask_map. apply Forall_forall. intros b Hb.
  apply list_elem_of_fmap in Hb. destruct Hb as (p & -> & _).
  assert (Hzero : 0 / 24 == 0) by reflexivity.
  assert (Hw : forall c, in_window c (0 / 24) p = false).
  { intros c. apply not_true_iff_false. rewrite in_window_spec.
    intros [Hlo Hhi]. lra. }
  rewrite !Hw. reflexivity.
Qed.

(** C10, counterexample: for the empty series the estimator returns no
    estimate at half-width 0; its assertion that a sample remains fails. *)
Lemma C10_counterexample :
  estimate_scatter (H := sample_functions) [] [] 0 0 0 = Raise AssertionError.
Proof. reflexivity. Qed.

(** C10, amended: for a folded series and fixed [pri] and [sec], a larger
    exclusion half-width never includes more samples than a smaller one; and
    for a non-empty series the estimate at half-width 0 is the standard
    deviation of the whole flux array. *)
Theorem C10_scatter_estimator_monotone `{SpecialFunctions}
    (phi_days flux : list Q) (pri sec narrow wide : Q) :
  narrow <= wide ->
  (length (included_samples phi_days flux pri sec wide)
   <= length (included_samples phi_days flux pri sec narrow))%nat /\
  (length phi_days = length flux ->
   flux <> [] ->
   estimate_scatter phi_days flux pri sec 0 = Ok (np_std flux)).
Proof.
  intros Hw. split.
  - unfold included_samples. apply select_length_mono.
    apply scatter_mask_mono. exact Hw.
  - intros Hlen Hne.
    assert (Hsel : select flux (scatter_mask phi_days pri sec 0) = flux).
    { apply select_all; [|apply scatter_mask_zero].
      rewrite scatter_mask_length. exact Hlen. }
    unfold estimate_scatter, mask_select.
    rewrite Hlen, Nat.eqb_refl. simpl.
    rewrite scatter_mask_length, Hlen, Nat.eqb_refl.
    destruct (np_any (scatter_mask phi_days pri sec 0)) eqn:Hany.
    + simpl. rewrite Hsel. reflexivity.
    + exfalso. apply Hne. rewrite <- Hsel.
      destruct flux as [|x flux]; [reflexivity|].
      destruct phi_days as [|p phi]; [discriminate|].
      pose proof (scatter_mask_zero (p :: phi) pri sec) as Hall.
      destruct (scatter_mask (p :: phi) pri sec 0) as [|b m] eqn:Hm.
      * apply (f_equal length) in Hm. rewrite scatter_mask_length in Hm.
        discriminate.
      * inversion Hall; subst. simpl in Hany. discriminate.
Qed.

Lemma C10_witness :
  Nat.le (length (included_samples [0; 1; 2; 3; 4] [0; 0; 10; 0; 0] 2 2 36))
         (length (included_samples [0; 1; 2; 3; 4] [0; 0; 10; 0; 0] 2 2 12)) /\
  estimate_scatter (H := sample_functions)
    [0; 1; 2; 3; 4] [0; 0; 10; 0; 0] 2 2 0
  = Ok (np_std (H := sample_functions) [0; 0; 10; 0; 0]).
Proof.
  destruct (C10_scatter_estimator_monotone (H := sample_functions)
              [0; 1; 2; 3; 4] [0; 0; 10; 0; 0] 2 2 12 36) as [Hcount Hzero].
  - vm_compute. discriminate.
  - split; [exact Hcount|]. apply Hzero; [reflexivity | discriminate].
Defined.

(** ** The convolution engine *)

Lemma np_convolve_ok (a v : list Q) :
  a <> [] -> v <> [] ->
  np_convolve a v
  = Ok (map (convolve_at a v) (seq 0 (length a + length v - 1))).
Proof.
  intros Ha Hv. unfold np_convolve.
  destruct a as [|x a]; [contradiction|].
  destruct v as [|y v]; [contradiction|]. reflexivity.
Qed.

Lemma slice_second_copy {A : Type} (a b : list A) :
  length b = length a -> slice (a ++ b) (length a) (length a + length a) = b.
Proof.
  intros Hlen. unfold slice.
  rewrite drop_app_length. apply take_ge. lia.
Qed.

Lemma slice_map_seq {A : Type} (f : nat -> A) (n total : nat) :
  (n + n <= total)%nat ->
  slice (map f (seq 0 total)) n (n + n) = map f (seq n n).
Proof.
  intros Htotal. unfold slice.
  change (@map nat A f) with (@fmap list _ nat A f).
  rewrite <- fmap_drop, <- fmap_take, drop_seq, take_seq.
  do 2 f_equal; lia.
Qed.

(** On binary64 the statistic has the same shape as on exact numbers: for
    accepted, non-empty arrays of one length it has one value per bin, the
    sum of the products at that position of the second period. *)
Lemma convolution_statistic_binary64_run (phase flux model : list float) :
  np_all_isfinite flux = true ->
  np_all_isfinite model = true ->
  phase <> [] ->
  length phase = length flux ->
  length flux = length model ->
  convolution_statistic_binary64 phase flux model
  = Ok (map (convolve_at_binary64 (flux ++ flux) (map PrimFloat.opp model))
          (seq (length model) (length model))).
Proof.
  intros Hflux Hmodel Hne Hpf Hfm. unfold convolution_statistic_binary64.
  rewrite Hflux, Hmodel, Hpf, Hfm, Nat.eqb_refl. cbn [py_assert bind].
  destruct phase as [|p phase]; [contradiction|].
  destruct flux as [|f flux]; [discriminate|].
  destruct model as [|m model]; [discriminate|].
  cbn [bind app map]. f_equal.
  apply (slice_map_seq _ (length (m :: model))).
  cbn [length] in *. rewrite length_app, length_map. cbn [length]. lia.
Qed.

(** C5, counterexample: the empty series passes the assertions, and no
    series is produced ([np.max] of the empty phase array raises); and
    finite values do not keep the statistic finite: a flux of 2^600 and a
    model of -2^600, both finite, have a product that overflows binary64,
    and the statistic of the one bin is infinite. *)
Lemma C5_counterexample :
  compute_convolution_for_binned_data [] [] [] 0.25 = Raise ValueError /\
  np_all_isfinite [0x1p600%float] = true /\
  np_all_isfinite [(-0x1p600)%float] = true /\
  convolution_statistic_binary64
    [1%float] [0x1p600%float] [(-0x1p600)%float] = Ok [infinity] /\
  PrimFloat.is_finite infinity = false.
Proof. repeat split; reflexivity. Qed.

(** C5, amended: for non-empty binned phase, binned flux and model arrays
    of one length, the convolution engine returns a series with one (phase,
    statistic) entry per bin, as many as the binned series has; each
    statistic is the sum that the linear convolution of the doubled flux
    with the negated model has at that position of the second period.  The
    sum is a number in exact arithmetic; on binary64 it can overflow, as
    the counterexample shows, and no finiteness is stated. *)
Theorem C5_convolution_series_length (phase flux model : list Q)
    (offset_frac : Q) :
  phase <> [] ->
  length phase = length flux ->
  length flux = length model ->
  exists bphase stat,
    compute_convolution_for_binned_data phase flux model offset_frac
    = Ok {| nrows := length phase; columns := [bphase; stat] |} /\
    length bphase = length phase /\
    length stat = length phase /\
    stat = map (convolve_at (flux ++ flux) (map Qopp model))
             (seq (length model) (length model)).
Proof.
  intros Hne Hpf Hfm. unfold compute_convolution_for_binned_data.
  rewrite Hpf, Hfm, Nat.eqb_refl. simpl.
  destruct (np_max phase) as [period|e] eqn:Hmax.
  2:{ destruct phase; [contradiction | discriminate]. }
  simpl.
  rewrite np_convolve_ok.
  2:{ destruct flux; [|discriminate]. destruct phase; [contradiction|discriminate]. }
  2:{ destruct model; [|discriminate].
      destruct phase; [contradiction|]. simpl in *. lia. }
  simpl.
  rewrite slice_map_seq by (rewrite length_app, length_map; destruct model;
                            [destruct phase; [contradiction | simpl in *; lia]
                            | simpl in *; lia]).
  rewrite <- Hfm, <- Hpf.
  rewrite slice_second_copy by apply length_map.
  unfold np_vstack_T, np_fmod. rewrite !length_map, length_seq, Nat.eqb_refl.
  eexists _, _. split; [reflexivity|].
  rewrite !length_map, length_seq. repeat split; reflexivity.
Qed.

Lemma C5_witness :
  exists bphase stat,
    compute_convolution_for_binned_data
      [0; 1; 2; 3] [0; -1; 0; 0] [0; -1; 0; 0] 0.25
    = Ok {| nrows := 4; columns := [bphase; stat] |} /\
    length bphase = 4%nat /\ length stat = 4%nat.
Proof.
  destruct (C5_convolution_series_length
              [0; 1; 2; 3] [0; -1; 0; 0] [0; -1; 0; 0] 0.25)
    as (bphase & stat & Hrun & Hb & Hs & _).
  - discriminate.
  - reflexivity.
  - reflexivity.
  - exists bphase, stat. auto.
Defined.

(** ** The event locator *)

Section FirstBest.
Variable better : Q -> Q -> bool.
Hypothesis better_irrefl : forall x, better x x = false.
Hypothesis better_trans :
  forall x y z, better x y = true -> better y z = true -> better x z = true.
Hypothesis better_cotrans :
  forall x y z, better x z = true -> better x y = true \/ better y z = true.

(** [first_best] returns the position of an element that nothing beats,
    and that beats everything before it. *)
Lemma first_best_spec (a pre : list Q) (ibest : nat) (best : Q) :
  pre !! ibest = Some best ->
  (forall j x, pre !! j = Some x -> better x best = false) ->
  (forall j x, (j < ibest)%nat -> pre !! j = Some x -> better best x = true) ->
  exists m,
    (pre ++ a) !! first_best better (length pre) ibest best a = Some m /\
    (forall j x, (pre ++ a) !! j = Some x -> better x m = false) /\
    (forall j x, (j < first_best better (length pre) ibest best a)%nat ->
                 (pre ++ a) !! j = Some x -> better m x = true).
Proof.
  revert pre ibest best.
  induction a as [|x a IH]; intros pre ibest best Hbest Hnone Hbefore; simpl.
  - rewrite app_nil_r. exists best. auto.
  - replace (S (length pre)) with (length (pre ++ [x]))
      by (rewrite length_app; simpl; lia).
    rewrite (cons_middle x pre a), (assoc_L (++)).
    destruct (better x best) eqn:Hx.
    + apply IH.
      * rewrite lookup_app_r by lia. rewrite Nat.sub_diag. reflexivity.
      * intros j y Hj. apply lookup_app_Some in Hj.
        destruct Hj as [Hj|[_ Hj]].
        -- apply not_true_iff_false. intros Hyx.
           pose proof (better_trans _ _ _ Hyx Hx) as Hyb.
           rewrite (Hnone _ _ Hj) in Hyb. discriminate.
        -- destruct (j - length pre)%nat; [|discriminate].
           injection Hj as <-. apply better_irrefl.
      * intros j y Hlt Hj. rewrite lookup_app_l in Hj by exact Hlt.
        destruct (better_cotrans x y best Hx) as [Hxy|Hyb]; [exact Hxy|].
        rewrite (Hnone _ _ Hj) in Hyb. discriminate.
    + apply IH.
      * apply lookup_app_l_Some. exact Hbest.
      * intros j y Hj. apply lookup_app_Some in Hj.
        destruct Hj as [Hj|[_ Hj]]; [eauto|].
        destruct (j - length pre)%nat; [|discriminate].
        injection Hj as <-. exact Hx.
      * intros j y Hlt Hj.
        apply lookup_lt_Some in Hbest.
        rewrite lookup_app_l in Hj by lia. eauto.
Qed.
End FirstBest.

Lemma np_argmin_spec (a : list Q) :
  a <> [] ->
  exists i m,
    np_argmin a = Ok i /\ a !! i = Some m /\
    (forall j x, a !! j = Some x -> m <= x) /\
    (forall j x, (j < i)%nat -> a !! j = Some x -> m < x).
Proof.
  destruct a as [|x a]; [contradiction|]. intros _.
  destruct (first_best_spec Qltb) with (a := a) (pre := [x]) (ibest := 0%nat)
    (best := x) as (m & Hm & Hmin & Hfirst).
  - intros y. apply Qltb_ge. lra.
  - intros u v w. rewrite !Qltb_lt. lra.
  - intros u v w. rewrite !Qltb_lt. intros Huw.
    destruct (Qlt_le_dec u v); [left; assumption | right; lra].
  - reflexivity.
  - intros [|j] y Hj; [|discriminate]. injection Hj as <-.
    apply Qltb_ge. lra.
  - intros j y Hj. lia.
  - exists (first_best Qltb 1 0 x a), m. split; [reflexivity|].
    split; [exact Hm|]. split.
    + intros j y Hj. apply Qltb_ge. eauto.
    + intros j y Hlt Hj. apply Qltb_lt. eauto.
Qed.

Lemma np_argmax_spec (a : list Q) :
  a <> [] ->
  exists i m,
    np_argmax a = Ok i /\ a !! i = Some m /\
    (forall j x, a !! j = Some x -> x <= m) /\
    (forall j x, (j < i)%nat -> a !! j = Some x -> x < m).
Proof.
  destruct a as [|x a]; [contradiction|]. intros _.
  destruct (first_best_spec (fun u v => Qltb v u)) with (a := a) (pre := [x])
    (ibest := 0%nat) (best := x) as (m & Hm & Hmax & Hfirst).
  - intros y. apply Qltb_ge. lra.
  - intros u v w. rewrite !Qltb_lt. lra.
  - intros u v w. rewrite !Qltb_lt. intros Huw.
    destruct (Qlt_le_dec v u); [left; assumption | right; lra].
  - reflexivity.
  - intros [|j] y Hj; [|discriminate]. injection Hj as <-.
    apply Qltb_ge. lra.
  - intros j y Hj. lia.
  - exists (first_best (fun u v => Qltb v u) 1 0 x a), m.
    split; [reflexivity|]. split; [exact Hm|]. split.
    + intros j y Hj. apply Qltb_ge. exact (Hmax j y Hj).
    + intros j y Hlt Hj. apply Qltb_lt. exact (Hfirst j y Hlt Hj).
Qed.

Lemma in_window_false (centre width p : Q) :
  in_window centre width p = false <-> outside centre width p.
Proof.
  unfold outside. rewrite <- in_window_spec, not_true_iff_false. tauto.
Qed.

Lemma mask_assign_window (centre width : Q) (phase ms : list Q) :
  length phase = length ms ->
  mask_assign ms (window centre width phase) 0
  = Ok (zeroed centre width phase ms).
Proof.
  intros Hlen. unfold mask_assign.
  rewrite window_map, length_map, Hlen, Nat.eqb_refl. f_equal.
  unfold zeroed. revert ms Hlen.
  induction phase as [|p phase IH]; intros [|s ms] Hlen; simpl in *;
    try discriminate; try reflexivity.
  f_equal. apply IH. lia.
Qed.

Lemma zeroed_length (centre width : Q) (phase ms : list Q) :
  length phase = length ms -> length phase = length (zeroed centre width phase ms).
Proof.
  intros Hlen. unfold zeroed. rewrite length_zip_with. lia.
Qed.

Lemma zeroed_lookup (centre width : Q) (phase ms : list Q) (j : nat) (p s : Q) :
  phase !! j = Some p -> ms !! j = Some s ->
  zeroed centre width phase ms !! j
  = Some (if in_window centre width p then 0 else s).
Proof.
  intros Hp Hs. unfold zeroed. rewrite lookup_zip_with, Hp. simpl.
  rewrite Hs. reflexivity.
Qed.

Lemma get_item_lookup {A : Type} (a : list A) (i : nat) (x : A) :
  a !! i = Some x -> get_item a i = Ok x.
Proof. intros Hx. unfold get_item. rewrite Hx. reflexivity. Qed.

Lemma lookup_same_length {A B : Type} (a : list A) (b : list B) (i : nat) (x : A) :
  length b = length a -> a !! i = Some x -> exists y, b !! i = Some y.
Proof.
  intros Hlen Hx. apply lookup_lt_Some in Hx.
  apply lookup_lt_is_Some_2. lia.
Qed.

Lemma same_length_nonempty {A B : Type} (a : list A) (b : list B) :
  length a = length b -> b <> [] -> a <> [].
Proof. intros Hlen Hb ->. destruct b; [contradiction | discriminate]. Qed.

(** C3, counterexample: with statistics 1, 2, 3 at phases 0, 10, 20 and a
    duration of 24 hours, [pri] is 0; zeroing the window of [pri] makes the
    zeroed entry the minimum, so [sec] is 0 too, inside (-2, 2). *)
Lemma C3_counterexample :
  exists results pri sec,
    find_indices_of_key_locations
      {| nrows := 3; columns := [[0; 10; 20]; [1; 2; 3]] |} 100 24
    = Ok results /\
    results !! "pri"%string = Some pri /\
    results !! "sec"%string = Some sec /\
    ~ outside pri (2 * (24 / 24)) sec.
Proof.
  exists (<["pos"%string := 20]> (<["ter"%string := 0]>
            (<["sec"%string := 0]> (<["pri"%string := 0]> ∅)))), 0, 0.
  split; [vm_compute; reflexivity|].
  split; [reflexivity|]. split; [reflexivity|].
  intros Hout. apply Hout. split; reflexivity.
Qed.

(** C3, amended: for a non-empty series and a positive duration, [pri] is
    the phase of the first global minimum of the raw statistic.  The later
    events are found on a statistic in which the entries of the windows
    have been overwritten with 0, so an entry of a window can be found
    again: [sec] lies outside the window of [pri] when some entry outside it
    has a negative statistic; [ter] lies outside the windows of [pri] and
    [sec] when some entry outside both has a negative statistic; [pos] lies
    outside the wider windows of [pri] and [sec], and has the largest raw
    statistic of the entries outside them, when some entry outside both has
    a positive statistic. *)
Theorem C3_event_locations (phase stat : list Q)
    (period_days duration_hrs : Q) :
  length phase = length stat ->
  stat <> [] ->
  0 < duration_hrs ->
  let gap := 2 * (duration_hrs / 24) in
  let pos_gap := 3 * (duration_hrs / 24) in
  exists pri sec ter pos,
    find_indices_of_key_locations
      {| nrows := length phase; columns := [phase; stat] |}
      period_days duration_hrs
    = Ok (<["pos"%string := pos]> (<["ter"%string := ter]>
           (<["sec"%string := sec]> (<["pri"%string := pri]> ∅)))) /\
    (exists i s,
        phase !! i = Some pri /\ stat !! i = Some s /\
        (forall j x, stat !! j = Some x -> s <= x) /\
        (forall j x, (j < i)%nat -> stat !! j = Some x -> s < x)) /\
    ((exists j p s,
         phase !! j = Some p /\ stat !! j = Some s /\
         outside pri gap p /\ s < 0) ->
     outside pri gap sec) /\
    ((exists j p s,
         phase !! j = Some p /\ stat !! j = Some s /\
         outside pri gap p /\ outside sec gap p /\ s < 0) ->
     outside pri gap ter /\ outside sec gap ter) /\
    ((exists j p s,
         phase !! j = Some p /\ stat !! j = Some s /\
         outside pri pos_gap p /\ outside sec pos_gap p /\ 0 < s) ->
     outside pri pos_gap pos /\ outside sec pos_gap pos /\
     exists i s,
       phase !! i = Some pos /\ stat !! i = Some s /\
       forall j p x,
         phase !! j = Some p -> stat !! j = Some x ->
         outside pri pos_gap p -> outside sec pos_gap p -> x <= s).
Proof.
  intros Hlen Hne Hdur gap pos_gap.
  assert (Hwidth : 0 < duration_hrs / 24).
  { apply Qmult_lt_0_compat; [exact Hdur | reflexivity]. }
  assert (Hgap : gap <= pos_gap) by (subst gap pos_gap; lra).
  assert (Hphase : phase <> [])
    by exact (same_length_nonempty phase stat Hlen Hne).
  (* the primary *)
  destruct (np_argmin_spec stat Hne) as (i0 & s0 & Hi0 & Hs0 & Hmin0 & Hfirst0).
  destruct (lookup_same_length stat phase i0 s0 Hlen Hs0) as [pri Hpri].
  (* the secondary *)
  set (ms1 := zeroed pri gap phase stat).
  assert (Hlen1 : length phase = length ms1)
    by (apply zeroed_length; exact Hlen).
  destruct (np_argmin_spec ms1) as (i1 & m1 & Hi1 & Hm1 & Hmin1 & _).
  { eapply same_length_nonempty; [symmetry; exact Hlen1|].
    exact Hphase. }
  destruct (lookup_same_length ms1 phase i1 m1 Hlen1 Hm1) as [sec Hsec].
  (* the tertiary *)
  set (ms2 := zeroed sec gap phase ms1).
  assert (Hlen2 : length phase = length ms2)
    by (apply zeroed_length; exact Hlen1).
  destruct (np_argmin_spec ms2) as (i2 & m2 & Hi2 & Hm2 & Hmin2 & _).
  { eapply same_length_nonempty; [symmetry; exact Hlen2|].
    exact Hphase. }
  destruct (lookup_same_length ms2 phase i2 m2 Hlen2 Hm2) as [ter Hter].
  (* the positive event *)
  set (ms3 := zeroed pri pos_gap phase ms2).
  assert (Hlen3 : length phase = length ms3)
    by (apply zeroed_length; exact Hlen2).
  set (ms4 := zeroed sec pos_gap phase ms3).
  assert (Hlen4 : length phase = length ms4)
    by (apply zeroed_length; exact Hlen3).
  destruct (np_argmax_spec ms4) as (i3 & m4 & Hi3 & Hm4 & Hmax4 & _).
  { eapply same_length_nonempty; [symmetry; exact Hlen4|].
    exact Hphase. }
  destruct (lookup_same_length ms4 phase i3 m4 Hlen4 Hm4) as [pos Hpos].
  (* what each masked statistic holds at a position *)
  assert (Hat : forall j p s,
             phase !! j = Some p -> stat !! j = Some s ->
             let v1 := if in_window pri gap p then 0 else s in
             let v2 := if in_window sec gap p then 0 else v1 in
             let v3 := if in_window pri pos_gap p then 0 else v2 in
             let v4 := if in_window sec pos_gap p then 0 else v3 in
             ms1 !! j = Some v1 /\ ms2 !! j = Some v2 /\ ms4 !! j = Some v4).
  { intros j p s Hp Hs v1 v2 v3 v4.
    pose proof (zeroed_lookup pri gap phase stat j p s Hp Hs) as H1.
    pose proof (zeroed_lookup sec gap phase ms1 j p _ Hp H1) as H2.
    pose proof (zeroed_lookup pri pos_gap phase ms2 j p _ Hp H2) as H3.
    pose proof (zeroed_lookup sec pos_gap phase ms3 j p _ Hp H3) as H4.
    auto. }
  exists pri, sec, ter, pos. split; [|split; [|split; [|split]]].
  - unfold find_indices_of_key_locations, get_column. simpl columns.
    rewrite (get_item_lookup [phase; stat] 0 phase eq_refl).
    rewrite (get_item_lookup [phase; stat] 1 stat eq_refl).
    cbn [bind]. rewrite Hi0. cbn [bind].
    rewrite (get_item_lookup _ _ _ Hpri). cbn [bind].
    rewrite mask_assign_window by exact Hlen. cbn [bind].
    fold gap. fold ms1. rewrite Hi1. cbn [bind].
    rewrite (get_item_lookup _ _ _ Hsec). cbn [bind].
    rewrite mask_assign_window by exact Hlen1. cbn [bind].
    fold ms2. rewrite Hi2. cbn [bind].
    rewrite (get_item_lookup _ _ _ Hter). cbn [bind].
    rewrite mask_assign_window by exact Hlen2. cbn [bind].
    fold pos_gap. fold ms3.
    rewrite mask_assign_window by exact Hlen3. cbn [bind].
    fold ms4. rewrite Hi3. cbn [bind].
    rewrite (get_item_lookup _ _ _ Hpos). reflexivity.
  - exists i0, s0. auto.
  - intros (j & p & s & Hp & Hs & Hout & Hneg).
    apply in_window_false in Hout.
    destruct (Hat j p s Hp Hs) as (H1 & _). cbv zeta in H1. rewrite Hout in H1.
    pose proof (Hmin1 j s H1) as Hle.
    destruct (lookup_same_length phase stat i1 sec (eq_sym Hlen) Hsec) as [x Hx].
    destruct (Hat i1 sec x Hsec Hx) as (H1' & _). cbv zeta in H1'.
    rewrite Hm1 in H1'. injection H1' as Heq.
    apply in_window_false.
    destruct (in_window pri gap sec); [|reflexivity]. subst m1. lra.
  - intros (j & p & s & Hp & Hs & Hout1 & Hout2 & Hneg).
    apply in_window_false in Hout1, Hout2.
    destruct (Hat j p s Hp Hs) as (_ & H2 & _). cbv zeta in H2.
    rewrite Hout1, Hout2 in H2.
    pose proof (Hmin2 j s H2) as Hle.
    destruct (lookup_same_length phase stat i2 ter (eq_sym Hlen) Hter) as [x Hx].
    destruct (Hat i2 ter x Hter Hx) as (_ & H2' & _). cbv zeta in H2'.
    rewrite Hm2 in H2'. injection H2' as Heq.
    rewrite <- !in_window_false.
    destruct (in_window sec gap ter); [subst m2; lra|].
    destruct (in_window pri gap ter); [subst m2; lra|]. auto.
  - intros (j & p & s & Hp & Hs & Hout1 & Hout2 & Hplus).
    assert (Hraw : forall j p x,
               phase !! j = Some p -> stat !! j = Some x ->
               outside pri pos_gap p -> outside sec pos_gap p ->
               ms4 !! j = Some x).
    { intros j' p' x' Hp' Hx' Ho1 Ho2.
      destruct (Hat j' p' x' Hp' Hx') as (_ & _ & H4). cbv zeta in H4.
      apply in_window_false in Ho1, Ho2.
      assert (Hn1 : in_window pri gap p' = false).
      { apply not_true_iff_false. intros Hin.
        apply (in_window_widen _ _ _ _ Hgap) in Hin. congruence. }
      assert (Hn2 : in_window sec gap p' = false).
      { apply not_true_iff_false. intros Hin.
        apply (in_window_widen _ _ _ _ Hgap) in Hin. congruence. }
      rewrite Ho1, Ho2, Hn1, Hn2 in H4. exact H4. }
    pose proof (Hmax4 j s (Hraw j p s Hp Hs Hout1 Hout2)) as Hle.
    destruct (lookup_same_length phase stat i3 pos (eq_sym Hlen) Hpos) as [x Hx].
    destruct (Hat i3 pos x Hpos Hx) as (_ & _ & H4'). cbv zeta in H4'.
    rewrite Hm4 in H4'. injection H4' as Heq.
    rewrite <- !in_window_false.
    destruct (in_window sec pos_gap pos); [subst m4; lra|].
    destruct (in_window pri pos_gap pos); [subst m4; lra|].
    split; [reflexivity|]. split; [reflexivity|].
    destruct (in_window sec gap pos); [subst m4; lra|].
    destruct (in_window pri gap pos); [subst m4; lra|].
    subst m4. exists i3, x. split; [exact Hpos|]. split; [exact Hx|].
    intros j' p' x' Hp' Hx' Ho1 Ho2.
    exact (Hmax4 j' x' (Hraw j' p' x' Hp' Hx' Ho1 Ho2)).
Qed.

Lemma C3_witness :
  exists pri sec ter pos,
    find_indices_of_key_locations
      {| nrows := 4; columns := [[0; 10; 20; 30]; [-5; -1; -3; 2]] |} 100 24
    = Ok (<["pos"%string := pos]> (<["ter"%string := ter]>
           (<["sec"%string := sec]> (<["pri"%string := pri]> ∅)))) /\
    (exists i s,
        [0; 10; 20; 30] !! i = Some pri /\ [-5; -1; -3; 2] !! i = Some s /\
        forall j x, [-5; -1; -3; 2] !! j = Some x -> s <= x).
Proof.
  destruct (C3_event_locations [0; 10; 20; 30] [-5; -1; -3; 2] 100 24)
    as (pri & sec & ter & pos & Hrun & (i & s & Hp & Hs & Hmin & _) & _).
  - reflexivity.
  - discriminate.
  - reflexivity.
  - exists pri, sec, ter, pos. split; [exact Hrun|].
    exists i, s. auto.
Defined.

(** Three dips and a bump, ten days apart, for a transit of one day: the
    four events are found in the order of their depth. *)
Example find_indices_of_key_locations_dips :
  find_indices_of_key_locations
    {| nrows := 4; columns := [[0; 10; 20; 30]; [-5; -1; -3; 2]] |} 100 24
  = Ok (<["pos"%string := 30]> (<["ter"%string := 10]>
         (<["sec"%string := 20]> (<["pri"%string := 0]> ∅)))).
Proof. vm_compute. reflexivity. Qed.

(** * Further properties of the module *)

(** ** The phase folder: range, periodicity, transit centres *)

Lemma compute_phase_range_witness :
  Forall2 (fun t p =>
             - (10) < p /\ p < 10 /\ (0 <= p <-> 5 - 0.25 * 10 <= t \/ p == 0))
    [0; 7; 30] (compute_phase [0; 7; 30] 10 5 0.25).
Proof. apply (compute_phase_range [0; 7; 30] 10 5). reflexivity. Defined.

Lemma Qfloor_unique (q : Q) (z : Z) :
  inject_Z z <= q -> q < inject_Z (z + 1) -> Qfloor q = z.
Proof.
  intros Hlo Hhi.
  pose proof (Qfloor_le q) as Hfl. pose proof (Qlt_floor q) as Hfh.
  assert (H1 : (z < Qfloor q + 1)%Z).
  { rewrite Zlt_Qlt. eapply Qle_lt_trans; eassumption. }
  assert (H2 : (Qfloor q < z + 1)%Z).
  { rewrite Zlt_Qlt. eapply Qle_lt_trans; eassumption. }
  lia.
Qed.







(** ** The convolution engine: the relabelled phases and the statistic *)

Lemma np_max_spec (a : list Q) (m : Q) :
  np_max a = Ok m -> Forall (fun x => x <= m) a /\ m ∈ a.
Proof.
  destruct a as [|x a]; [discriminate|]. simpl. intros [= <-].
  assert (Hfold : forall a x,
             x <= foldl (fun m y => if Qltb m y then y else m) x a /\
             Forall (fun z => z <= foldl (fun m y => if Qltb m y then y else m) x a) a /\
             foldl (fun m y => if Qltb m y then y else m) x a ∈ x :: a).
  { clear. induction a as [|y a IH]; intros x; simpl.
    - split; [lra|]. split; [constructor | left].
    - destruct (Qltb x y) eqn:Hxy.
      + apply Qltb_lt in Hxy. destruct (IH y) as (H1 & H2 & H3).
        split; [lra|]. split; [constructor; assumption|].
        right. exact H3.
      + apply Qltb_ge in Hxy. destruct (IH x) as (H1 & H2 & H3).
        split; [exact H1|]. split; [constructor; [lra | exact H2]|].
        apply elem_of_cons in H3. destruct H3 as [->|H3]; [left|].
        right. right. exact H3. }
  destruct (Hfold a x) as (H1 & H2 & H3). split; [|exact H3].
  constructor; assumption.
Qed.

Lemma np_min_spec (a : list Q) (m : Q) :
  np_min a = Ok m -> Forall (fun x => m <= x) a /\ m ∈ a.
Proof.
  destruct a as [|x a]; [discriminate|]. simpl. intros [= <-].
  assert (Hfold : forall a x,
             foldl (fun m y => if Qltb y m then y else m) x a <= x /\
             Forall (fun z => foldl (fun m y => if Qltb y m then y else m) x a <= z) a /\
             foldl (fun m y => if Qltb y m then y else m) x a ∈ x :: a).
  { clear. induction a as [|y a IH]; intros x; simpl.
    - split; [lra|]. split; [constructor | left].
    - destruct (Qltb y x) eqn:Hxy.
      + apply Qltb_lt in Hxy. destruct (IH y) as (H1 & H2 & H3).
        split; [lra|]. split; [constructor; assumption|].
        right. exact H3.
      + apply Qltb_ge in Hxy. destruct (IH x) as (H1 & H2 & H3).
        split; [exact H1|]. split; [constructor; [lra | exact H2]|].
        apply elem_of_cons in H3. destruct H3 as [->|H3]; [left|].
        right. right. exact H3. }
  destruct (Hfold a x) as (H1 & H2 & H3). split; [|exact H3].
  constructor; assumption.
Qed.

(** What the engine returns on non-empty arrays of one length. *)
Lemma compute_convolution_for_binned_data_run (phase flux model : list Q)
    (offset_frac period : Q) :
  length phase = length flux ->
  length flux = length model ->
  np_max phase = Ok period ->
  compute_convolution_for_binned_data phase flux model offset_frac
  = Ok {| nrows := length phase;
          columns :=
            [map (fun p => fmod (period + p - offset_frac * period) period) phase;
             map (convolve_at (flux ++ flux) (map Qopp model))
               (seq (length phase) (length phase))] |}.
Proof.
  intros Hpf Hfm Hmax.
  assert (Hne : phase <> []) by (intros ->; discriminate).
  unfold compute_convolution_for_binned_data.
  rewrite <- Hfm, <- Hpf, Nat.eqb_refl, Hmax. simpl.
  rewrite np_convolve_ok.
  2:{ destruct flux; [|discriminate]. destruct phase; [contradiction|discriminate]. }
  2:{ destruct model; [|discriminate].
      destruct phase; [contradiction|]. simpl in *. lia. }
  simpl.
  rewrite slice_map_seq
    by (rewrite length_app, length_map; destruct phase;
        [contradiction | simpl in *; lia]).
  rewrite slice_second_copy by apply length_map.
  unfold np_vstack_T, np_fmod. rewrite !length_map, length_seq, Nat.eqb_refl.
  rewrite !map_map. reflexivity.
Qed.

(** X4: the engine relabels with the largest binned phase in the place of
    the period.  For non-negative binned phases, not all 0, and an offset in
    [0, 1], every relabelled phase lies in [0, max phase), and is the
    remainder of [max + phase - offset * max]. *)
Theorem convolution_phases_in_range (phase flux model : list Q)
    (offset_frac : Q) :
  length phase = length flux ->
  length flux = length model ->
  Forall (fun p => 0 <= p) phase ->
  Exists (fun p => 0 < p) phase ->
  0 <= offset_frac -> offset_frac <= 1 ->
  exists period bphase stat,
    np_max phase = Ok period /\
    compute_convolution_for_binned_data phase flux model offset_frac
    = Ok {| nrows := length phase; columns := [bphase; stat] |} /\
    bphase = map (fun p => fmod (period + p - offset_frac * period) period) phase /\
    Forall (fun b => 0 <= b /\ b < period) bphase.
Proof.
  intros Hpf Hfm Hnonneg Hsome Ho0 Ho1.
  destruct (np_max phase) as [period|e] eqn:Hmax.
  2:{ destruct phase; [inversion Hsome | discriminate]. }
  destruct (np_max_spec _ _ Hmax) as [Hle _].
  assert (Hpos : 0 < period).
  { apply Exists_exists in Hsome. destruct Hsome as (p & Hin & Hp).
    rewrite Forall_forall in Hle. specialize (Hle p Hin). lra. }
  eexists period, _, _. split; [reflexivity|].
  split; [apply (compute_convolution_for_binned_data_run _ _ _ _ period);
          assumption|].
  split; [reflexivity|].
  apply Forall_forall. intros b Hb. apply list_elem_of_fmap in Hb.
  destruct Hb as (p & -> & Hin).
  rewrite Forall_forall in Hnonneg. specialize (Hnonneg p Hin).
  apply fmod_nonneg; [exact Hpos | nra].
Qed.

Lemma convolution_phases_in_range_witness :
  exists period bphase stat,
    np_max [0; 1; 2; 3] = Ok period /\
    compute_convolution_for_binned_data
      [0; 1; 2; 3] [0; -1; 0; 0] [0; -1; 0; 0] 0.25
    = Ok {| nrows := 4; columns := [bphase; stat] |} /\
    Forall (fun b => 0 <= b /\ b < period) bphase.
Proof.
  destruct (convolution_phases_in_range
              [0; 1; 2; 3] [0; -1; 0; 0] [0; -1; 0; 0] 0.25)
    as (period & bphase & stat & Hmax & Hrun & _ & Hrange).
  - reflexivity.
  - reflexivity.
  - repeat constructor; discriminate.
  - right. left. reflexivity.
  - discriminate.
  - discriminate.
  - exists period, bphase, stat. auto.
Defined.

Lemma Qsum_app (a b : list Q) : Qsum (a ++ b) == Qsum a + Qsum b.
Proof.
  induction a as [|x a IH]; simpl; [lra|]. rewrite IH. lra.
Qed.

Lemma Qsum_map_ext {A : Type} (f g : A -> Q) (l : list A) :
  (forall x, x ∈ l -> f x == g x) -> Qsum (map f l) == Qsum (map g l).
Proof.
  induction l as [|x l IH]; intros Hfg; simpl; [reflexivity|].
  rewrite (Hfg x) by left. rewrite IH; [reflexivity|].
  intros y Hy. apply Hfg. right. exact Hy.
Qed.

Lemma Qsum_map_zero {A : Type} (f : A -> Q) (l : list A) :
  (forall x, x ∈ l -> f x == 0) -> Qsum (map f l) == 0.
Proof.
  induction l as [|x l IH]; intros Hf; simpl; [reflexivity|].
  rewrite (Hf x) by left. rewrite IH; [lra|].
  intros y Hy. apply Hf. right. exact Hy.
Qed.

(** A sum over 0 .. n-1 may be taken from the top down. *)
Lemma Qsum_reverse (f : nat -> Q) (n : nat) :
  Qsum (map f (seq 0 n)) == Qsum (map (fun m => f (n - 1 - m)%nat) (seq 0 n)).
Proof.
  revert f. induction n as [|n IH]; intros f; [reflexivity|].
  rewrite seq_S at 2. rewrite map_app, Qsum_app. simpl.
  rewrite <- seq_shift, map_map, (IH (fun t => f (S t))).
  replace (n - 0 - n)%nat with 0%nat by lia.
  rewrite (Qsum_map_ext (fun m => f (n - 0 - m)%nat)
             (fun m => f (S (n - 1 - m)))).
  - lra.
  - intros m Hm. apply elem_of_seq in Hm.
    replace (n - 0 - m)%nat with (S (n - 1 - m)) by lia. reflexivity.
Qed.

Lemma nth_doubled (flux : list Q) (x : nat) :
  (x < length flux + length flux)%nat ->
  nth x (flux ++ flux) 0 = nth (x mod length flux) flux 0.
Proof.
  intros Hx. destruct (Nat.lt_ge_cases x (length flux)) as [Hlt|Hge].
  - rewrite app_nth1 by exact Hlt. rewrite Nat.mod_small by exact Hlt.
    reflexivity.
  - rewrite app_nth2 by exact Hge.
    replace (x mod length flux)%nat with (x - length flux)%nat; [reflexivity|].
    replace x with ((x - length flux) + 1 * length flux)%nat at 2 by lia.
    rewrite Nat.Div0.mod_add. symmetry. apply Nat.mod_small. lia.
Qed.

(** In the second period, the linear convolution of the doubled flux with
    the negated model is the circular convolution over one period. *)
Lemma convolve_at_second_period (flux model : list Q) (i : nat) :
  length flux = length model ->
  (i < length flux)%nat ->
  convolve_at (flux ++ flux) (map Qopp model) (length flux + i)
  == Qsum (map (fun m => - nth m model 0
                         * nth ((length flux + i - m) mod length flux) flux 0)
             (seq 0 (length flux))).
Proof.
  intros Hlen Hi. unfold convolve_at. rewrite length_app.
  set (n := length flux) in *.
  set (a := flux ++ flux). set (v := map Qopp model).
  assert (Hv : length v = n) by (unfold v; rewrite length_map; lia).
  replace (n + n)%nat with (S i + (n + (n - S i)))%nat by lia.
  rewrite !seq_app, !map_app, !Qsum_app.
  rewrite (Qsum_map_zero _ (seq 0 (S i))).
  2:{ intros j Hj. apply elem_of_seq in Hj.
      destruct (Nat.leb_spec j (n + i)); [|reflexivity].
      rewrite (nth_overflow v) by lia. lra. }
  rewrite (Qsum_map_zero _ (seq (0 + S i + n) (n - S i))).
  2:{ intros j Hj. apply elem_of_seq in Hj.
      destruct (Nat.leb_spec j (n + i)); [lia | reflexivity]. }
  assert (Hseq : seq (0 + S i) n = map (Nat.add (S i)) (seq 0 n)).
  { change (map (Nat.add (S i)) (seq 0 n)) with (Nat.add (S i) <$> seq 0 n).
    rewrite (fmap_add_seq (S i) 0 n). f_equal. lia. }
  rewrite Hseq, map_map, Qsum_reverse.
  rewrite (Qsum_map_ext _
             (fun m => - nth m model 0 * nth ((n + i - m) mod n) flux 0)).
  - lra.
  - intros m Hm. apply elem_of_seq in Hm.
    destruct (Nat.leb_spec (S i + (n - 1 - m)) (n + i)); [|lia].
    replace (n + i - (S i + (n - 1 - m)))%nat with m by lia.
    replace (S i + (n - 1 - m))%nat with (n + i - m)%nat by lia.
    unfold a. rewrite nth_doubled by (fold n; lia). fold n.
    unfold v. change 0 with (Qopp 0) at 2. rewrite map_nth.
    change (Qopp 0) with 0. lra.
Qed.

(** X5: the statistic of the engine is the circular convolution of the
    binned flux with the negated model: at position i it is the sum over m
    of - model[m] * flux[(i - m) mod n]. *)
Theorem convolution_is_circular (phase flux model : list Q) (offset_frac : Q) :
  phase <> [] ->
  length phase = length flux ->
  length flux = length model ->
  exists bphase stat,
    compute_convolution_for_binned_data phase flux model offset_frac
    = Ok {| nrows := length phase; columns := [bphase; stat] |} /\
    forall i, (i < length flux)%nat ->
      exists s,
        stat !! i = Some s /\
        s == Qsum (map (fun m => - nth m model 0
                                 * nth ((length flux + i - m) mod length flux)
                                     flux 0)
                     (seq 0 (length flux))).
Proof.
  intros Hne Hpf Hfm.
  destruct (np_max phase) as [period|e] eqn:Hmax.
  2:{ destruct phase; [contradiction | discriminate]. }
  eexists _, _.
  split; [apply (compute_convolution_for_binned_data_run _ _ _ _ period);
          assumption|].
  intros i Hi.
  exists (convolve_at (flux ++ flux) (map Qopp model) (length flux + i)).
  split.
  - rewrite list_lookup_fmap, lookup_seq_lt by lia. rewrite Hpf. reflexivity.
  - apply convolve_at_second_period; assumption.
Qed.

Lemma convolution_is_circular_witness :
  exists bphase stat,
    compute_convolution_for_binned_data
      [0; 1; 2; 3] [0; -1; 0; 0] [0; -1; 0; 0] 0.25
    = Ok {| nrows := 4; columns := [bphase; stat] |} /\
    exists s, stat !! 2%nat = Some s /\ s == -1.
Proof.
  destruct (convolution_is_circular
              [0; 1; 2; 3] [0; -1; 0; 0] [0; -1; 0; 0] 0.25)
    as (bphase & stat & Hrun & Hstat).
  - discriminate.
  - reflexivity.
  - reflexivity.
  - exists bphase, stat. split; [exact Hrun|].
    destruct (Hstat 2%nat) as (s & Hs & Hval); [simpl; lia|].
    exists s. split; [exact Hs|]. rewrite Hval. reflexivity.
Defined.

(** ** The event locator: totality, degenerate inputs, the effect of zeroing *)

(** The four searches of the locator on a series of two columns of one
    length. *)
Lemma find_indices_of_key_locations_run (n : nat) (phase stat : list Q)
    (period_days duration_hrs : Q) :
  length phase = length stat ->
  stat <> [] ->
  exists i0 i1 i2 i3 pri sec ter pos,
    let gap := 2 * (duration_hrs / 24) in
    let pos_gap := 3 * (duration_hrs / 24) in
    let ms1 := zeroed pri gap phase stat in
    let ms2 := zeroed sec gap phase ms1 in
    let ms4 := zeroed sec pos_gap phase (zeroed pri pos_gap phase ms2) in
    find_indices_of_key_locations {| nrows := n; columns := [phase; stat] |}
      period_days duration_hrs
    = Ok (<["pos"%string := pos]> (<["ter"%string := ter]>
           (<["sec"%string := sec]> (<["pri"%string := pri]> ∅)))) /\
    np_argmin stat = Ok i0 /\ phase !! i0 = Some pri /\
    np_argmin ms1 = Ok i1 /\ phase !! i1 = Some sec /\
    np_argmin ms2 = Ok i2 /\ phase !! i2 = Some ter /\
    np_argmax ms4 = Ok i3 /\ phase !! i3 = Some pos.
Proof.
  intros Hlen Hne.
  assert (Hphase : phase <> [])
    by exact (same_length_nonempty phase stat Hlen Hne).
  assert (Hnext : forall c w ms,
             length phase = length ms ->
             length phase = length (zeroed c w phase ms) /\
             zeroed c w phase ms <> []).
  { intros c w ms Hms. pose proof (zeroed_length c w phase ms Hms) as Hz.
    split; [exact Hz|].
    eapply same_length_nonempty; [symmetry; exact Hz | exact Hphase]. }
  destruct (np_argmin_spec stat Hne) as (i0 & s0 & Hi0 & Hs0 & _).
  destruct (lookup_same_length stat phase i0 s0 Hlen Hs0) as [pri Hpri].
  set (gap := 2 * (duration_hrs / 24)).
  set (pos_gap := 3 * (duration_hrs / 24)).
  destruct (Hnext pri gap stat Hlen) as [Hlen1 Hne1].
  destruct (np_argmin_spec _ Hne1) as (i1 & m1 & Hi1 & Hm1 & _).
  destruct (lookup_same_length _ phase i1 m1 Hlen1 Hm1) as [sec Hsec].
  destruct (Hnext sec gap _ Hlen1) as [Hlen2 Hne2].
  destruct (np_argmin_spec _ Hne2) as (i2 & m2 & Hi2 & Hm2 & _).
  destruct (lookup_same_length _ phase i2 m2 Hlen2 Hm2) as [ter Hter].
  destruct (Hnext pri pos_gap _ Hlen2) as [Hlen3 _].
  destruct (Hnext sec pos_gap _ Hlen3) as [Hlen4 Hne4].
  destruct (np_argmax_spec _ Hne4) as (i3 & m4 & Hi3 & Hm4 & _).
  destruct (lookup_same_length _ phase i3 m4 Hlen4 Hm4) as [pos Hpos].
  exists i0, i1, i2, i3, pri, sec, ter, pos. cbv zeta.
  repeat (split; [|try assumption]); try assumption.
  unfold find_indices_of_key_locations, get_column. simpl columns.
  rewrite (get_item_lookup [phase; stat] 0 phase eq_refl).
  rewrite (get_item_lookup [phase; stat] 1 stat eq_refl).
  cbn [bind]. rewrite Hi0. cbn [bind].
  rewrite (get_item_lookup _ _ _ Hpri). cbn [bind].
  rewrite mask_assign_window by exact Hlen. cbn [bind].
  fold gap. rewrite Hi1. cbn [bind].
  rewrite (get_item_lookup _ _ _ Hsec). cbn [bind].
  rewrite mask_assign_window by exact Hlen1. cbn [bind].
  rewrite Hi2. cbn [bind].
  rewrite (get_item_lookup _ _ _ Hter). cbn [bind].
  rewrite mask_assign_window by exact Hlen2. cbn [bind].
  fold pos_gap.
  rewrite mask_assign_window by exact Hlen3. cbn [bind].
  rewrite Hi3. cbn [bind].
  rewrite (get_item_lookup _ _ _ Hpos). reflexivity.
Qed.

(** X6: on every non-empty series of two columns of one length the locator
    returns, whatever the period and the duration (zero and negative ones
    included): a dictionary with the four keys pri, sec, ter and pos, each
    holding one of the phases of the series. *)
Theorem find_indices_of_key_locations_total (n : nat) (phase stat : list Q)
    (period_days duration_hrs : Q) :
  length phase = length stat ->
  stat <> [] ->
  exists pri sec ter pos,
    find_indices_of_key_locations {| nrows := n; columns := [phase; stat] |}
      period_days duration_hrs
    = Ok (<["pos"%string := pos]> (<["ter"%string := ter]>
           (<["sec"%string := sec]> (<["pri"%string := pri]> ∅)))) /\
    pri ∈ phase /\ sec ∈ phase /\ ter ∈ phase /\ pos ∈ phase.
Proof.
  intros Hlen Hne.
  destruct (find_indices_of_key_locations_run n phase stat period_days
              duration_hrs Hlen Hne)
    as (i0 & i1 & i2 & i3 & pri & sec & ter & pos & Hrun
        & _ & Hpri & _ & Hsec & _ & Hter & _ & Hpos).
  exists pri, sec, ter, pos. split; [exact Hrun|].
  repeat split; eapply list_elem_of_lookup_2; eassumption.
Qed.

Lemma find_indices_of_key_locations_total_witness :
  exists pri sec ter pos,
    find_indices_of_key_locations
      {| nrows := 3; columns := [[0; 10; 20]; [-1; 4; -3]] |} 0 (-24)
    = Ok (<["pos"%string := pos]> (<["ter"%string := ter]>
           (<["sec"%string := sec]> (<["pri"%string := pri]> ∅)))) /\
    pri ∈ [0; 10; 20] /\ sec ∈ [0; 10; 20] /\ ter ∈ [0; 10; 20] /\
    pos ∈ [0; 10; 20].
Proof.
  apply (find_indices_of_key_locations_total 3 [0; 10; 20] [-1; 4; -3] 0 (-24)).
  - reflexivity.
  - discriminate.
Defined.

(** X7: a series with fewer than two columns makes the locator raise
    [IndexError]; a series without rows makes it raise [ValueError]
    ([np.argmin] of an empty array). *)
Theorem find_indices_of_key_locations_degenerate (conv : ndarray2)
    (period_days duration_hrs : Q) :
  (length (columns conv) < 2)%nat \/ columns conv !! 1%nat = Some [] ->
  find_indices_of_key_locations conv period_days duration_hrs
  = Raise (if Nat.ltb (length (columns conv)) 2 then IndexError else ValueError).
Proof.
  unfold find_indices_of_key_locations, get_column, get_item.
  destruct conv as [n cols]. simpl.
  destruct cols as [|c0 [|c1 cols]]; simpl.
  - intros _. reflexivity.
  - intros _. reflexivity.
  - intros [Hlt|Hempty]; [lia|]. injection Hempty as ->. reflexivity.
Qed.

Lemma find_indices_of_key_locations_degenerate_witness :
  find_indices_of_key_locations (np_zeros2 0 2) 10 2 = Raise ValueError /\
  find_indices_of_key_locations (np_zeros2 5 1) 10 2 = Raise IndexError.
Proof.
  split.
  - apply (find_indices_of_key_locations_degenerate (np_zeros2 0 2) 10 2).
    right. reflexivity.
  - apply (find_indices_of_key_locations_degenerate (np_zeros2 5 1) 10 2).
    left. simpl. lia.
Defined.

Lemma in_window_nonpos (centre width p : Q) :
  width <= 0 -> in_window centre width p = false.
Proof.
  intros Hw. apply not_true_iff_false. rewrite in_window_spec.
  intros [Hlo Hhi]. lra.
Qed.

Lemma zeroed_nonpos (centre width : Q) (phase ms : list Q) :
  width <= 0 -> length phase = length ms -> zeroed centre width phase ms = ms.
Proof.
  intros Hw. unfold zeroed. revert ms.
  induction phase as [|p phase IH]; intros [|s ms] Hlen; simpl in *;
    try discriminate; try reflexivity.
  rewrite in_window_nonpos by exact Hw. f_equal. apply IH. lia.
Qed.

(** X8: with a duration that is zero or negative no window holds any phase
    and nothing is zeroed: the secondary and the tertiary are the primary
    again, and pos is the phase of the largest raw statistic. *)
Theorem find_indices_of_key_locations_no_duration (n : nat)
    (phase stat : list Q) (period_days duration_hrs : Q) :
  length phase = length stat ->
  stat <> [] ->
  duration_hrs <= 0 ->
  exists pri pos,
    find_indices_of_key_locations {| nrows := n; columns := [phase; stat] |}
      period_days duration_hrs
    = Ok (<["pos"%string := pos]> (<["ter"%string := pri]>
           (<["sec"%string := pri]> (<["pri"%string := pri]> ∅)))) /\
    (exists i s, phase !! i = Some pri /\ stat !! i = Some s /\
                 forall j x, stat !! j = Some x -> s <= x) /\
    (exists i s, phase !! i = Some pos /\ stat !! i = Some s /\
                 forall j x, stat !! j = Some x -> x <= s).
Proof.
  intros Hlen Hne Hdur.
  assert (Hwidth : duration_hrs / 24 <= 0).
  { apply Qle_shift_div_r; [reflexivity | lra]. }
  destruct (find_indices_of_key_locations_run n phase stat period_days
              duration_hrs Hlen Hne)
    as (i0 & i1 & i2 & i3 & pri & sec & ter & pos & Hrun
        & Hi0 & Hpri & Hi1 & Hsec & Hi2 & Hter & Hi3 & Hpos).
  cbv zeta in *.
  assert (Hsame : forall c w, w <= 0 -> zeroed c w phase stat = stat)
    by (intros c w Hw; apply zeroed_nonpos; assumption).
  rewrite (Hsame pri) in Hi1, Hi2, Hi3 by lra.
  rewrite (Hsame sec) in Hi2, Hi3 by lra.
  rewrite (Hsame pri), (Hsame sec) in Hi3 by lra.
  assert (i1 = i0) by congruence. assert (i2 = i0) by congruence. subst i1 i2.
  assert (sec = pri) by congruence. assert (ter = pri) by congruence.
  subst sec ter.
  exists pri, pos. split; [exact Hrun|]. split.
  - destruct (np_argmin_spec stat Hne) as (i & s & Hi & Hs & Hmin & _).
    assert (i = i0) by congruence. subst i. exists i0, s. auto.
  - destruct (np_argmax_spec stat Hne) as (i & s & Hi & Hs & Hmax & _).
    assert (i = i3) by congruence. subst i. exists i3, s. auto.
Qed.

Lemma find_indices_of_key_locations_no_duration_witness :
  exists pri pos,
    find_indices_of_key_locations
      {| nrows := 3; columns := [[0; 10; 20]; [-1; 4; -3]] |} 100 0
    = Ok (<["pos"%string := pos]> (<["ter"%string := pri]>
           (<["sec"%string := pri]> (<["pri"%string := pri]> ∅)))).
Proof.
  destruct (find_indices_of_key_locations_no_duration
              3 [0; 10; 20] [-1; 4; -3] 100 0) as (pri & pos & Hrun & _).
  - reflexivity.
  - discriminate.
  - discriminate.
  - exists pri, pos. exact Hrun.
Defined.

Lemma in_window_centre (centre width : Q) :
  0 < width -> in_window centre width centre = true.
Proof. intros Hw. apply in_window_spec. split; lra. Qed.

(** X9: zeroing does not exclude.  When every statistic of the series is
    positive (and the duration is positive), the zeroed entries are the
    smallest: the secondary lies inside the window of the primary, and the
    tertiary inside the window of the primary or of the secondary. *)
Theorem find_indices_of_key_locations_positive_series (n : nat)
    (phase stat : list Q) (period_days duration_hrs : Q) :
  length phase = length stat ->
  stat <> [] ->
  0 < duration_hrs ->
  Forall (fun s => 0 < s) stat ->
  let gap := 2 * (duration_hrs / 24) in
  exists pri sec ter pos,
    find_indices_of_key_locations {| nrows := n; columns := [phase; stat] |}
      period_days duration_hrs
    = Ok (<["pos"%string := pos]> (<["ter"%string := ter]>
           (<["sec"%string := sec]> (<["pri"%string := pri]> ∅)))) /\
    (pri - gap < sec /\ sec < pri + gap) /\
    ((pri - gap < ter /\ ter < pri + gap) \/
     (sec - gap < ter /\ ter < sec + gap)).
Proof.
  intros Hlen Hne Hdur Hpositive gap.
  assert (Hgap : 0 < gap).
  { assert (0 < duration_hrs / 24); [|subst gap; lra].
    apply Qmult_lt_0_compat; [exact Hdur | reflexivity]. }
  destruct (find_indices_of_key_locations_run n phase stat period_days
              duration_hrs Hlen Hne)
    as (i0 & i1 & i2 & i3 & pri & sec & ter & pos & Hrun
        & Hi0 & Hpri & Hi1 & Hsec & Hi2 & Hter & _).
  cbv zeta in *. fold gap in Hi1, Hi2.
  set (ms1 := zeroed pri gap phase stat) in *.
  set (ms2 := zeroed sec gap phase ms1) in *.
  assert (Hraw : forall j p, phase !! j = Some p ->
                   exists x, stat !! j = Some x /\ 0 < x).
  { intros j p Hp.
    destruct (lookup_same_length phase stat j p (eq_sym Hlen) Hp) as [x Hx].
    exists x. split; [exact Hx|].
    rewrite Forall_forall in Hpositive. apply Hpositive.
    eapply list_elem_of_lookup_2. exact Hx. }
  (* at the primary, both masked statistics are 0 *)
  destruct (Hraw i0 pri Hpri) as (s0 & Hs0 & _).
  pose proof (zeroed_lookup pri gap phase stat i0 pri s0 Hpri Hs0) as H10.
  rewrite in_window_centre in H10 by exact Hgap. fold ms1 in H10.
  pose proof (zeroed_lookup sec gap phase ms1 i0 pri 0 Hpri H10) as H20.
  fold ms2 in H20.
  assert (H20' : ms2 !! i0 = Some 0) by (destruct (in_window sec gap pri); exact H20).
  exists pri, sec, ter, pos. split; [exact Hrun|]. split.
  - destruct (np_argmin_spec ms1) as (i & m1 & Hi & Hm1 & Hmin1 & _).
    { intros Hnil. rewrite Hnil in H10. discriminate. }
    assert (i = i1) by congruence. subst i.
    pose proof (Hmin1 i0 0 H10) as Hle.
    destruct (Hraw i1 sec Hsec) as (x1 & Hx1 & Hpos1).
    pose proof (zeroed_lookup pri gap phase stat i1 sec x1 Hsec Hx1) as H11.
    fold ms1 in H11. rewrite Hm1 in H11. injection H11 as Heq.
    apply in_window_spec.
    destruct (in_window pri gap sec); [reflexivity|]. subst m1. lra.
  - destruct (np_argmin_spec ms2) as (i & m2 & Hi & Hm2 & Hmin2 & _).
    { intros Hnil. rewrite Hnil in H20'. discriminate. }
    assert (i = i2) by congruence. subst i.
    pose proof (Hmin2 i0 0 H20') as Hle.
    destruct (Hraw i2 ter Hter) as (x2 & Hx2 & Hpos2).
    pose proof (zeroed_lookup pri gap phase stat i2 ter x2 Hter Hx2) as H12.
    fold ms1 in H12.
    pose proof (zeroed_lookup sec gap phase ms1 i2 ter _ Hter H12) as H22.
    fold ms2 in H22. rewrite Hm2 in H22. injection H22 as Heq.
    rewrite <- !in_window_spec.
    destruct (in_window sec gap ter); [right; reflexivity|].
    destruct (in_window pri gap ter); [left; reflexivity|]. subst m2. lra.
Qed.

Lemma find_indices_of_key_locations_positive_series_witness :
  exists pri sec ter pos,
    find_indices_of_key_locations
      {| nrows := 3; columns := [[0; 10; 20]; [1; 2; 3]] |} 100 24
    = Ok (<["pos"%string := pos]> (<["ter"%string := ter]>
           (<["sec"%string := sec]> (<["pri"%string := pri]> ∅)))) /\
    (pri - 2 * (24 / 24) < sec /\ sec < pri + 2 * (24 / 24)).
Proof.
  destruct (find_indices_of_key_locations_positive_series
              3 [0; 10; 20] [1; 2; 3] 100 24)
    as (pri & sec & ter & pos & Hrun & Hsec & _).
  - reflexivity.
  - discriminate.
  - reflexivity.
  - repeat constructor.
  - exists pri, sec, ter, pos. auto.
Defined.

(** ** The scatter estimator: symmetry and outcome *)

(** X10: the estimator treats the two events alike: exchanging the phases
    of the primary and of the secondary changes nothing. *)
Theorem estimate_scatter_symmetric `{SpecialFunctions}
    (phi_days flux : list Q) (pri sec gap_width_hrs : Q) :
  estimate_scatter phi_days flux pri sec gap_width_hrs
  = estimate_scatter phi_days flux sec pri gap_width_hrs.
Proof.
  assert (Hmask : scatter_mask phi_days pri sec gap_width_hrs
                  = scatter_mask phi_days sec pri gap_width_hrs).
  { rewrite !scatter_mask_map. apply map_ext. intros p.
    rewrite orb_comm. reflexivity. }
  unfold estimate_scatter. rewrite Hmask. reflexivity.
Qed.

Lemma np_any_scatter_mask (phi_days : list Q) (pri sec gap_width_hrs : Q) :
  np_any (scatter_mask phi_days pri sec gap_width_hrs) = true <->
  Exists (fun p => outside pri (gap_width_hrs / 24) p /\
                   outside sec (gap_width_hrs / 24) p) phi_days.
Proof.
  rewrite scatter_mask_map. unfold np_any.
  induction phi_days as [|p phi IH]; simpl.
  - split; [discriminate | intros Hex; inversion Hex].
  - rewrite Exists_cons, orb_true_iff, IH.
    rewrite negb_true_iff, orb_false_iff, !in_window_false. tauto.
Qed.

(** X11: the estimator returns exactly when the two arrays have one length
    and some sample lies outside both open windows (a sample on the edge of
    a window counts as outside); it then returns the standard deviation of
    the flux of those samples, and otherwise raises [AssertionError]. *)
Theorem estimate_scatter_outcome `{SpecialFunctions}
    (phi_days flux : list Q) (pri sec gap_width_hrs : Q) :
  (length phi_days = length flux /\
   Exists (fun p => outside pri (gap_width_hrs / 24) p /\
                    outside sec (gap_width_hrs / 24) p) phi_days ->
   estimate_scatter phi_days flux pri sec gap_width_hrs
   = Ok (np_std (included_samples phi_days flux pri sec gap_width_hrs))) /\
  (~ (length phi_days = length flux /\
      Exists (fun p => outside pri (gap_width_hrs / 24) p /\
                       outside sec (gap_width_hrs / 24) p) phi_days) ->
   estimate_scatter phi_days flux pri sec gap_width_hrs = Raise AssertionError).
Proof.
  unfold estimate_scatter, mask_select, included_samples. split.
  - intros [Hlen Hex]. apply np_any_scatter_mask in Hex.
    rewrite Hlen, Nat.eqb_refl. simpl.
    rewrite Hex, scatter_mask_length, Hlen, Nat.eqb_refl. reflexivity.
  - intros Hnot.
    destruct (Nat.eqb_spec (length phi_days) (length flux)) as [Hlen|];
      [|reflexivity]. simpl.
    destruct (np_any _) eqn:Hany; [|reflexivity].
    exfalso. apply Hnot. split; [exact Hlen|].
    apply np_any_scatter_mask. exact Hany.
Qed.

Lemma estimate_scatter_outcome_witness :
  estimate_scatter (H := sample_functions) [0; 1; 2] [5; 6; 7] 1 1 24
  = Ok (np_std (H := sample_functions) [5; 7]) /\
  estimate_scatter (H := sample_functions) [1] [5] 1 1 24
  = Raise AssertionError.
Proof.
  split.
  - apply (estimate_scatter_outcome (H := sample_functions)
             [0; 1; 2] [5; 6; 7] 1 1 24).
    split; [reflexivity|]. left. split; intros [Hlo Hhi]; discriminate.
  - apply (estimate_scatter_outcome (H := sample_functions) [1] [5] 1 1 24).
    intros [_ Hex]. inversion Hex as [p l [Hout _]|p l Hl]; subst.
    + apply Hout. split; reflexivity.
    + inversion Hl.
Defined.

(** ** The orchestrator: the outcome of every call *)

(** X12: [compute_modshift_metrics] returns for no input at all, whether
    the entry assertion passes or not; when [time] and [flux] differ in
    length the exception is the [AssertionError] of the entry assertion. *)
Theorem compute_modshift_metrics_never_returns `{SpecialFunctions}
    (time flux model : list Q) (period_days epoch_days duration_hrs : Q) :
  raises (compute_modshift_metrics time flux model
            period_days epoch_days duration_hrs) /\
  (forall results,
      compute_modshift_metrics time flux model
        period_days epoch_days duration_hrs <> Ok results) /\
  (length time <> length flux ->
   compute_modshift_metrics time flux model
     period_days epoch_days duration_hrs = Raise AssertionError).
Proof.
  assert (Hdiffer : length time <> length flux ->
            compute_modshift_metrics time flux model
              period_days epoch_days duration_hrs = Raise AssertionError).
  { intros Hlen. unfold compute_modshift_metrics.
    destruct (Nat.eqb_spec (length time) (length flux)); [contradiction|].
    reflexivity. }
  assert (Hraises : raises (compute_modshift_metrics time flux model
                              period_days epoch_days duration_hrs)).
  { destruct (Nat.eq_dec (length time) (length flux)) as [Hlen|Hlen].
    - rewrite compute_modshift_metrics_outcome by exact Hlen.
      eexists. reflexivity.
    - rewrite Hdiffer by exact Hlen. eexists. reflexivity. }
  split; [exact Hraises|]. split; [|exact Hdiffer].
  intros results Hok. destruct Hraises as [e He]. congruence.
Qed.

Lemma compute_modshift_metrics_never_returns_witness :
  compute_modshift_metrics (H := sample_functions) [0; 1; 2] [0; -1] [0; -1] 10 1 2
  = Raise AssertionError.
Proof.
  apply (compute_modshift_metrics_never_returns (H := sample_functions)
           [0; 1; 2] [0; -1] [0; -1] 10 1 2).
  simpl. lia.
Defined.

(** ** The box-car model *)

Lemma py_range_elem_of (start stop k : Z) :
  k ∈ py_range start stop <-> (start <= k < stop)%Z.
Proof.
  unfold py_range. rewrite list_elem_of_fmap. split.
  - intros (m & -> & Hm). apply elem_of_seq in Hm. lia.
  - intros Hk. exists (Z.to_nat (k - start)). split; [lia|].
    apply elem_of_seq. lia.
Qed.

Lemma py_range_NoDup (start stop : Z) : NoDup (py_range start stop).
Proof.
  unfold py_range. apply NoDup_fmap_2; [|apply NoDup_seq].
  intros m1 m2 Heq. lia.
Qed.

Lemma box_car_step_length (time : list Q) (period epoch d depth : Q)
    (flux : list Q) (i : Z) :
  length flux = length time ->
  length (box_car_step time period epoch d depth flux i) = length time.
Proof.
  intros Hlen. unfold box_car_step. rewrite length_zip_with. lia.
Qed.

Lemma box_car_loop_length (time : list Q) (period epoch d depth : Q)
    (epochs : list Z) (flux : list Q) :
  length flux = length time ->
  length (foldl (box_car_step time period epoch d depth) flux epochs)
  = length time.
Proof.
  revert flux. induction epochs as [|i epochs IH]; intros flux Hlen; simpl.
  - exact Hlen.
  - apply IH. apply box_car_step_length. exact Hlen.
Qed.

Lemma epoch_number_returns (x period : Q) :
  ~ period == 0 -> epoch_number x period = inr (Qfloor (x / period)).
Proof.
  intros Hp. unfold epoch_number.
  destruct (Qeq_bool period 0) eqn:Hz; [|reflexivity].
  apply Qeq_bool_iff in Hz. contradiction.
Qed.

(** X13: [box_car] returns a model only when the TCE holds the period, the
    duration and the depth, the period is not 0 and [time] is not empty; the
    model it returns has one value per sample. *)
Theorem box_car_returns `{TceNames} (time : list Q) (tce : gmap string Q)
    (offset : Q) (flux : list Q) :
  box_car time tce offset = inr flux ->
  (exists period, tce !! PERIOD = Some period /\ ~ period == 0) /\
  is_Some (tce !! DURATION_HRS) /\ is_Some (tce !! DEPTH) /\ time <> [] /\
  length flux = length time.
Proof.
  intros Hrun.
  assert (Hlength : length flux = length time).
  { unfold box_car, dict_get in Hrun.
    destruct (tce !! PERIOD) as [period|]; [|discriminate].
    destruct (tce !! DURATION_HRS) as [dur|]; [|discriminate].
    destruct (tce !! DEPTH) as [depth|]; [|discriminate].
    destruct (np_min time) as [mnT|]; [|discriminate].
    destruct (np_max time) as [mxT|]; [|discriminate].
    cbn [bind] in Hrun.
    destruct (epoch_number _ period) as [|e0]; [discriminate|].
    destruct (epoch_number _ period) as [|e1]; [discriminate|].
    injection Hrun as <-. apply box_car_loop_length. apply length_map. }
  unfold box_car, dict_get in Hrun.
  destruct (tce !! PERIOD) as [period|]; [|discriminate].
  destruct (tce !! DURATION_HRS) as [dur|]; [|discriminate].
  destruct (tce !! DEPTH) as [depth|]; [|discriminate].
  destruct time as [|t time]; [discriminate|].
  cbn [bind np_min np_max] in Hrun.
  unfold epoch_number in Hrun.
  destruct (Qeq_bool period 0) eqn:Hz; [discriminate|].
  split; [|split; [eexists; reflexivity
                  |split; [eexists; reflexivity
                          |split; [discriminate|exact Hlength]]]].
  exists period. split; [reflexivity|].
  intros Hp. apply Qeq_bool_iff in Hp. congruence.
Qed.

Lemma box_car_returns_witness :
  (exists period,
      (<["period"%string := 10]> (<["duration_hrs"%string := 24]>
         (<["depth"%string := 1000]> (∅ : gmap string Q))))
      !! (PERIOD (TceNames := sample_names)) = Some period /\
      ~ period == 0) /\
  [0; 0.4; 5] <> [].
Proof.
  destruct (box_car_returns (H := sample_names) [0; 0.4; 5]
              (<["period"%string := 10]> (<["duration_hrs"%string := 24]>
                 (<["depth"%string := 1000]> ∅))) 0
              (match box_car (H := sample_names) [0; 0.4; 5]
                       (<["period"%string := 10]>
                          (<["duration_hrs"%string := 24]>
                             (<["depth"%string := 1000]> ∅))) 0 with
               | inr flux => flux
               | inl _ => []
               end))
    as (Hperiod & _ & _ & Hne & _).
  - vm_compute. reflexivity.
  - split; assumption.
Defined.

(** X14: the errors of [box_car]: [KeyError] when the TCE lacks the period,
    the duration or the depth; with the three keys, [ValueError] for an
    empty [time]; and for a period of 0 no model but [OverflowError] or
    [ValueError], from the conversion of an infinite or undefined epoch
    number to [int]. *)
Theorem box_car_errors `{TceNames} (time : list Q) (tce : gmap string Q)
    (offset : Q) :
  (tce !! PERIOD = None \/ tce !! DURATION_HRS = None \/ tce !! DEPTH = None ->
   box_car time tce offset = inl (Builtin KeyError)) /\
  (is_Some (tce !! PERIOD) -> is_Some (tce !! DURATION_HRS) ->
   is_Some (tce !! DEPTH) -> time = [] ->
   box_car time tce offset = inl (Builtin ValueError)) /\
  (forall period,
      tce !! PERIOD = Some period -> period == 0 ->
      is_Some (tce !! DURATION_HRS) -> is_Some (tce !! DEPTH) -> time <> [] ->
      box_car time tce offset = inl OverflowError \/
      box_car time tce offset = inl (Builtin ValueError)).
Proof.
  unfold box_car, dict_get. split; [|split].
  - intros [Hp|[Hd|Hd]].
    + rewrite Hp. reflexivity.
    + destruct (tce !! PERIOD); [|reflexivity]. rewrite Hd. reflexivity.
    + destruct (tce !! PERIOD); [|reflexivity].
      destruct (tce !! DURATION_HRS); [|reflexivity]. rewrite Hd. reflexivity.
  - intros [period ->] [dur ->] [depth ->] ->. reflexivity.
  - intros period -> Hz [dur ->] [depth ->] Hne.
    destruct time as [|t time]; [contradiction|].
    cbn [bind np_min np_max]. unfold epoch_number.
    assert (Hb : Qeq_bool period 0 = true) by (apply Qeq_bool_iff; exact Hz).
    rewrite Hb. clear Hb.
    match goal with
    | |- context [Qeq_bool (?a - ?b) 0] => destruct (Qeq_bool (a - b) 0)
    end; [right | left]; reflexivity.
Qed.

Lemma box_car_errors_witness :
  box_car (H := sample_names) [1; 2] ∅ 0 = inl (Builtin KeyError) /\
  box_car (H := sample_names) []
    (<["period"%string := 10]> (<["duration_hrs"%string := 24]>
      (<["depth"%string := 1000]> ∅))) 0
  = inl (Builtin ValueError).
Proof.
  destruct (box_car_errors (H := sample_names) [1; 2] ∅ 0) as (Hkey & _ & _).
  destruct (box_car_errors (H := sample_names) []
              (<["period"%string := 10]> (<["duration_hrs"%string := 24]>
                (<["depth"%string := 1000]> ∅))) 0) as (_ & Hempty & _).
  split.
  - apply Hkey. left. reflexivity.
  - apply Hempty; try reflexivity; eexists; reflexivity.
Defined.

Lemma Forall2_zip_with_step {A B : Type} (P P' : A -> B -> Prop)
    (g : A -> B -> B) (l : list A) (k : list B) :
  (forall x y, x ∈ l -> P x y -> P' x (g x y)) ->
  Forall2 P l k -> Forall2 P' l (zip_with g l k).
Proof.
  intros Hstep Hall. induction Hall as [|x y l k Hxy _ IH]; simpl.
  - constructor.
  - constructor; [apply Hstep; [left | exact Hxy]|].
    apply IH. intros x' y' Hin. apply Hstep. right. exact Hin.
Qed.

Lemma Forall2_conj {A B : Type} (P P' : A -> B -> Prop)
    (l : list A) (k : list B) :
  Forall2 P l k -> Forall2 P' l k -> Forall2 (fun x y => P x y /\ P' x y) l k.
Proof.
  intros HP. induction HP as [|x y l k Hxy _ IH]; intros HP'.
  - constructor.
  - inversion HP'; subst. constructor; auto.
Qed.

(** Two windows of the model hold a common instant only if they are the
    same window, when the duration is shorter than the period. *)
Lemma box_car_windows_disjoint (period start d t : Q) (i j : Z) :
  0 < period -> d < period ->
  period * inject_Z i + start <= t -> t <= period * inject_Z i + start + d ->
  period * inject_Z j + start <= t -> t <= period * inject_Z j + start + d ->
  i = j.
Proof.
  intros Hp Hd Hi0 Hi1 Hj0 Hj1.
  destruct (Z.lt_trichotomy i j) as [Hlt|[Heq|Hgt]]; [|exact Heq|]; exfalso.
  - assert (Hq : inject_Z i + 1 <= inject_Z j).
    { change 1 with (inject_Z 1). rewrite <- inject_Z_plus, <- Zle_Qle. lia. }
    nra.
  - assert (Hq : inject_Z j + 1 <= inject_Z i).
    { change 1 with (inject_Z 1). rewrite <- inject_Z_plus, <- Zle_Qle. lia. }
    nra.
Qed.

(** After the loop has run over the epochs [epochs], a sample that lies in
    the window of one of them has lost the depth once, and any other sample
    is 0. *)
Lemma box_car_loop_spec (time : list Q) (period start d depth : Q)
    (epochs : list Z) :
  0 < period -> d < period ->
  NoDup epochs ->
  Forall2 (fun t f =>
             ((exists i, i ∈ epochs /\
                         period * inject_Z i + start <= t /\
                         t <= period * inject_Z i + start + d) /\
              f == - depth) \/
             ((forall i, i ∈ epochs ->
                         ~ (period * inject_Z i + start <= t /\
                            t <= period * inject_Z i + start + d)) /\
              f == 0))
    time
    (foldl (box_car_step time period start d depth)
       (map (fun t => 0 * t) time) epochs).
Proof.
  intros Hp Hd. induction epochs as [|x epochs IH] using rev_ind; intros Hnd.
  - simpl. apply Forall2_fmap_r, Forall_Forall2_diag, Forall_forall.
    intros t _. right. split; [|lra].
    intros i Hi. inversion Hi.
  - apply NoDup_app in Hnd. destruct Hnd as (Hnd & Hfresh & _).
    rewrite foldl_app. simpl. unfold box_car_step at 1.
    eapply Forall2_zip_with_step; [|exact (IH Hnd)].
    intros t f _ Hprev. simpl.
    destruct (Qle_bool (period * inject_Z x + start) t
              && Qle_bool t (period * inject_Z x + start + d)) eqn:Hin.
    + apply andb_true_iff in Hin. rewrite !Qle_bool_iff in Hin.
      destruct Hin as [Hx0 Hx1]. left. split.
      * exists x. split; [apply elem_of_app; right; left | split; assumption].
      * destruct Hprev as [[(i & Hi & Hi0 & Hi1) _]|[_ Hzero]]; [|lra].
        exfalso.
        assert (i = x)
          by (eapply (box_car_windows_disjoint period start d t); eassumption).
        subst i. apply (Hfresh x Hi). left.
    + assert (Hout : ~ (period * inject_Z x + start <= t /\
                        t <= period * inject_Z x + start + d)).
      { intros [Hx0 Hx1]. rewrite <- !Qle_bool_iff in Hx0, Hx1.
        rewrite Hx0, Hx1 in Hin. discriminate. }
      destruct Hprev as [[(i & Hi & Hi0 & Hi1) Hval]|[Hnone Hzero]].
      * left. split; [|exact Hval].
        exists i. split; [apply elem_of_app; left; exact Hi | split; assumption].
      * right. split; [|exact Hzero].
        intros i Hi. apply elem_of_app in Hi. destruct Hi as [Hi|Hi].
        -- apply Hnone. exact Hi.
        -- apply list_elem_of_singleton in Hi. subst i. exact Hout.
Qed.

(** X15: the box-car model.  For a positive period and a duration shorter
    than the period, [box_car] gives each sample that lies in a transit
    window the value -depth * 1e-6, and every other sample the value 0;
    the windows are the closed intervals of length duration_hrs / 24
    centred on offset * period + k * period, for the whole numbers k. *)
Theorem box_car_marks_transits `{TceNames} (time : list Q)
    (tce : gmap string Q) (offset period duration_hrs depth : Q) :
  tce !! PERIOD = Some period ->
  tce !! DURATION_HRS = Some duration_hrs ->
  tce !! DEPTH = Some depth ->
  time <> [] ->
  0 < period ->
  duration_hrs / 24 < period ->
  let start := offset * period - duration_hrs / 24 / 2 in
  exists flux,
    box_car time tce offset = inr flux /\
    Forall2 (fun t f =>
               (in_transit period start (duration_hrs / 24) t /\
                f == - (depth * (1 # 1000000))) \/
               (~ in_transit period start (duration_hrs / 24) t /\ f == 0))
      time flux.
Proof.
  intros Hperiod Hdur Hdepth Hne Hp Hd start.
  unfold box_car, dict_get. rewrite Hperiod, Hdur, Hdepth. cbn [bind].
  destruct (np_min time) as [mnT|] eqn:Hmin;
    [|destruct time; [contradiction | discriminate]].
  destruct (np_max time) as [mxT|] eqn:Hmax;
    [|destruct time; [contradiction | discriminate]].
  cbn [bind]. fold start.
  rewrite !epoch_number_returns by lra.
  eexists. split; [reflexivity|].
  destruct (np_min_spec _ _ Hmin) as [Hlow _].
  destruct (np_max_spec _ _ Hmax) as [Hhigh _].
  rewrite Forall_forall in Hlow, Hhigh.
  set (e0 := Qfloor ((mnT - start) / period)).
  set (e1 := Qfloor ((mxT - start) / period)).
  pose proof (box_car_loop_spec time period start (duration_hrs / 24)
                (depth * (1 # 1000000)) (py_range e0 (e1 + 1)) Hp Hd
                (py_range_NoDup _ _)) as Hloop.
  assert (Hmem : Forall2 (fun t _ => t ∈ time) time
                   (foldl (box_car_step time period start (duration_hrs / 24)
                             (depth * (1 # 1000000)))
                      (map (fun t => 0 * t) time) (py_range e0 (e1 + 1)))).
  { apply Forall2_same_length_lookup_2.
    - symmetry. apply box_car_loop_length. apply length_map.
    - intros i t f Ht _. eapply list_elem_of_lookup_2. exact Ht. }
  pose proof (Forall2_conj _ _ _ _ Hmem Hloop) as Hboth. clear Hmem Hloop.
  eapply Forall2_impl; [exact Hboth|]. clear Hboth.
  intros t f [Hin [[(i & _ & Hi0 & Hi1) Hval]|[Hnone Hzero]]]; simpl.
  - left. split; [exists i; split; assumption | exact Hval].
  - right. split; [|exact Hzero].
    intros (k & Hk0 & Hk1). apply (Hnone k); [|split; assumption].
    assert (Hfloor : Qfloor ((t - start) / period) = k).
    { apply Qfloor_unique.
      - apply Qle_shift_div_l; [exact Hp | lra].
      - apply Qlt_shift_div_r; [exact Hp|].
        rewrite inject_Z_plus. change (inject_Z 1) with 1. lra. }
    apply py_range_elem_of.
    assert (Hinv : 0 <= / period) by (apply Qlt_le_weak, Qinv_lt_0_compat; exact Hp).
    assert (e0 <= k)%Z.
    { rewrite <- Hfloor. apply Qfloor_resp_le.
      apply Qmult_le_compat_r; [|exact Hinv].
      specialize (Hlow t Hin). lra. }
    assert (k <= e1)%Z.
    { rewrite <- Hfloor. apply Qfloor_resp_le.
      apply Qmult_le_compat_r; [|exact Hinv].
      specialize (Hhigh t Hin). lra. }
    lia.
Qed.

Lemma box_car_marks_transits_witness :
  exists flux,
    box_car (H := sample_names) [0; 0.4; 0.6; 5; 9.5; 10; 20.2]
      (<["period"%string := 10]> (<["duration_hrs"%string := 24]>
        (<["depth"%string := 1000]> ∅))) 0
    = inr flux /\
    Forall2 (fun t f =>
               (in_transit 10 (0 * 10 - 24 / 24 / 2) (24 / 24) t /\
                f == - (1000 * (1 # 1000000))) \/
               (~ in_transit 10 (0 * 10 - 24 / 24 / 2) (24 / 24) t /\ f == 0))
      [0; 0.4; 0.6; 5; 9.5; 10; 20.2] flux.
Proof.
  apply (box_car_marks_transits (H := sample_names)
           [0; 0.4; 0.6; 5; 9.5; 10; 20.2] _ 0 10 24 1000);
    try reflexivity.
  discriminate.
Defined.

(** ** The binner called as it is declared *)

Lemma take_indices_outcome {A : Type} (a : list A) (ix : list nat) :
  take_indices a ix = Raise IndexError \/
  exists xs, take_indices a ix = Ok xs /\ length xs = length ix.
Proof.
  induction ix as [|i ix IH]; simpl.
  - right. exists []. auto.
  - unfold get_item. destruct (a !! i) as [x|]; [|left; reflexivity]. simpl.
    destruct IH as [->|(xs & -> & Hlen)]; [left; reflexivity|].
    right. exists (x :: xs). simpl. auto.
Qed.

Lemma cumulative_length (a w edges : list Q) :
  length (cumulative a w edges) = length edges.
Proof.
  induction edges as [|e [|e' edges] IH]; simpl in *; auto.
Qed.

Lemma np_diff_length (c : list Q) : length (np_diff c) = (length c - 1)%nat.
Proof.
  unfold np_diff. rewrite length_zip_with. destruct c; simpl; lia.
Qed.

Lemma select_length {A : Type} (a : list A) (idx : list bool) :
  length idx = length a -> length (select a idx) = np_count idx.
Proof.
  unfold np_count. revert idx.
  induction a as [|x a IH]; intros [|b idx] Hlen; simpl in *;
    try discriminate; try reflexivity.
  destruct b.
  - rewrite filter_cons_True by reflexivity. simpl. f_equal. apply IH. lia.
  - rewrite filter_cons_False by discriminate. apply IH. lia.
Qed.

(** Edges that never decrease pass the test of [np.histogram]. *)
Lemma edges_accepted (g : nat -> Q) (first count : nat) :
  (forall k, g k <= g (S k)) ->
  np_any (zip_with (fun lo hi => Qltb hi lo) (map g (seq first count))
            (tail (map g (seq first count)))) = false.
Proof.
  intros Hg. revert first.
  induction count as [|count IH]; intros first; [reflexivity|].
  specialize (IH (S first)). simpl.
  destruct count as [|count]; [reflexivity|]. simpl in *.
  rewrite IH, orb_false_r. apply Qltb_ge. apply Hg.
Qed.

Lemma np_arange_positive (stop : Q) :
  np_arange stop <> [] -> 0 < stop.
Proof.
  unfold np_arange. intros Hne.
  destruct (Z.to_nat (Qceiling stop)) eqn:Hn; [contradiction|].
  pose proof (Qceiling_lt stop) as Hlt.
  assert (Hone : inject_Z 0 <= inject_Z (Qceiling stop - 1))
    by (rewrite <- Zle_Qle; lia).
  change (inject_Z 0) with 0 in Hone. lra.
Qed.

Lemma set_column_ok (A : ndarray2) (k : nat) (v : list Q) :
  (k < length (columns A))%nat ->
  length v = nrows A ->
  set_column A k v
  = Ok {| nrows := nrows A; columns := <[k := v]> (columns A) |}.
Proof.
  intros Hk Hv. unfold set_column.
  destruct (Nat.ltb_spec k (length (columns A))); [|lia].
  rewrite Hv, Nat.eqb_refl. reflexivity.
Qed.

(** X16: the binner fails even when it is called as it is declared.  For a
    period that is not negative, whatever the arrays, the number of bins and
    the offset, every step before it succeeds or raises [IndexError] itself,
    and the write of the counts to column 2 of the two-column output raises
    [IndexError]. *)
Theorem fold_and_bin_data_index_error (time flux : list Q)
    (period epoch num_bins offset_frac : Q) :
  0 <= period ->
  fold_and_bin_data time flux period epoch num_bins offset_frac
  = Raise IndexError.
Proof.
  intros Hperiod. unfold fold_and_bin_data.
  set (bins := map (fun k => k / num_bins * period) (np_arange num_bins)).
  set (phase := compute_phase time period epoch offset_frac).
  destruct (take_indices_ok phase (np_argsort phase) (np_argsort_bound phase))
    as (phase' & -> & Hlen1).
  cbn [bind].
  destruct (take_indices_outcome flux (np_argsort phase))
    as [->|(flux' & -> & Hlen2)]; [reflexivity|].
  cbn [bind].
  assert (Hedges : np_any (zip_with (fun lo hi => Qltb hi lo) bins (tail bins))
                   = false).
  { destruct (decide (np_arange num_bins = [])) as [Hnil|Hne].
    - unfold bins. rewrite Hnil. reflexivity.
    - apply np_arange_positive in Hne.
      unfold bins, np_arange. rewrite map_map. apply edges_accepted.
      intros k.
      assert (inject_Z (Z.of_nat k) <= inject_Z (Z.of_nat (S k)))
        by (rewrite <- Zle_Qle; lia).
      assert (0 <= / num_bins * period).
      { apply Qmult_le_0_compat; [|exact Hperiod].
        apply Qlt_le_weak, Qinv_lt_0_compat. exact Hne. }
      unfold Qdiv. rewrite <- !Qmult_assoc.
      apply Qmult_le_compat_r; assumption. }
  unfold np_histogram. cbn [bind].
  rewrite Hedges. cbn [bind].
  replace (Nat.eqb (length flux') (length phase')) with true
    by (symmetry; apply Nat.eqb_eq; congruence).
  cbn [bind].
  set (cts := np_diff (cumulative phase' (map (fun _ => 1) phase') bins)).
  set (sums := np_diff (cumulative phase' flux' bins)).
  set (idx := map (fun c => Qltb 0 c) cts).
  assert (Hcts : length cts = (length bins - 1)%nat)
    by (unfold cts; rewrite np_diff_length, cumulative_length; reflexivity).
  assert (Hsums : length sums = (length bins - 1)%nat)
    by (unfold sums; rewrite np_diff_length, cumulative_length; reflexivity).
  assert (Hidx : length idx = (length bins - 1)%nat)
    by (unfold idx; rewrite length_map; exact Hcts).
  assert (Htake : length (take (length bins - 1) bins) = (length bins - 1)%nat)
    by (rewrite length_take; lia).
  unfold mask_select.
  rewrite Htake, Hidx, Hsums, Hcts, Nat.eqb_refl. cbn [bind].
  rewrite set_column_ok;
    [|rewrite np_zeros2_columns; lia
     |cbn [nrows np_zeros2]; apply select_length; congruence].
  cbn [bind].
  rewrite set_column_ok;
    [|cbn [columns np_zeros2]; rewrite length_insert, length_replicate; lia
     |cbn [nrows np_zeros2]; apply select_length; congruence].
  cbn [bind].
  rewrite set_column_out_of_bounds; [reflexivity|].
  cbn [columns np_zeros2]. rewrite !length_insert, length_replicate. lia.
Qed.

Lemma fold_and_bin_data_index_error_witness :
  fold_and_bin_data [1; 2; 3; 14] [4; 5; 6; 7] 5 0 8 0.25 = Raise IndexError.
Proof.
  apply (fold_and_bin_data_index_error [1; 2; 3; 14] [4; 5; 6; 7] 5 0 8 0.25).
  discriminate.
Defined.
